(** * Handler selection of the inline-cache compiler (src/ic/ic-compiler.cc)
      and the state bookkeeping of the IC base class (src/ic/ic.h).

    The embedding is shallow: every C++ function becomes a Rocq function of
    the same name.  Debug assertions (DCHECK) are kept: a function runs in a
    build mode and either finishes with a value or aborts on a failed
    assertion.  The isolate's mutable roots are threaded explicitly. *)

From Stdlib Require Import ZArith Lia Sorted.
From stdpp Require Import base decidable option list strings gmap.

Local Open Scope Z_scope.

(** ** Debug assertions *)

Inductive BuildMode := ReleaseBuild | DebugBuild.

Inductive Checked (A : Type) : Type :=
  | Done (a : A)
  | Aborted.
Arguments Done {A} a.
Arguments Aborted {A}.

Definition checked_bind {A B : Type} (f : A -> Checked B) (c : Checked A) : Checked B :=
  match c with
  | Done a => f a
  | Aborted => Aborted
  end.

#[global] Instance checked_ret : MRet Checked := fun _ a => Done a.
#[global] Instance checked_mbind : MBind Checked := fun _ _ f c => checked_bind f c.

(** [DCHECK(cond)]: compiled away in release builds, fatal in debug builds
    when the condition is false. *)
Definition DCHECK (build : BuildMode) (cond : bool) : Checked unit :=
  match build with
  | ReleaseBuild => Done tt
  | DebugBuild => if cond then Done tt else Aborted
  end.

(** A [Handle<T>] is either null or refers to a [T]. *)
Definition Handle (A : Type) : Type := option A.
Definition null {A : Type} : Handle A := None.
Definition is_null {A : Type} (h : Handle A) : bool :=
  match h with
  | None => true
  | Some _ => false
  end.

(** ** Declarations consulted by the IC code

    globals.h, elements-kind.h, objects.h, ic-state.h, utils.h, code-stubs.h
    and isolate.h are used by the functions below only through the names
    collected in the two interfaces [Enums] and [Declarations]; they are
    taken as parameters. *)

Definition ExtraICState : Type := Z.
Definition InstanceType : Type := Z.
Definition Flags : Type := N.

Class Enums : Type := {
  (* elements-kind.h *)
  ElementsKind : Type;
  ElementsKind_eq_dec :: EqDecision ElementsKind;
  FAST_HOLEY_ELEMENTS : ElementsKind;
  IsSloppyArgumentsElements : ElementsKind -> bool;
  (* objects.h: InstanceType *)
  JS_ARRAY_TYPE : InstanceType;
  FIRST_JS_RECEIVER_TYPE : InstanceType;
  (* globals.h *)
  InlineCacheState : Type;
  InlineCacheState_eq_dec :: EqDecision InlineCacheState;
  UNINITIALIZED : InlineCacheState;
  PREMONOMORPHIC : InlineCacheState;
  MEGAMORPHIC : InlineCacheState;
  RECOMPUTE_HANDLER : InlineCacheState;
  KeyedAccessStoreMode : Type;
  KeyedAccessStoreMode_eq_dec :: EqDecision KeyedAccessStoreMode;
  STANDARD_STORE : KeyedAccessStoreMode;
  STORE_AND_GROW_NO_TRANSITION : KeyedAccessStoreMode;
  STORE_NO_TRANSITION_IGNORE_OUT_OF_BOUNDS : KeyedAccessStoreMode;
  STORE_NO_TRANSITION_HANDLE_COW : KeyedAccessStoreMode;
  LanguageMode : Type;
  IcCheckType : Type;
  ELEMENT : IcCheckType;
  (* objects.h: Code::Kind *)
  Kind : Type;
  STORE_IC : Kind;
  KEYED_STORE_IC : Kind;
}.

Section Code.

Context `{E : Enums}.

(** ** Code objects and the stubs that produce them *)

Record LoadICState : Type := mkLoadICState { load_extra_ic_state : ExtraICState }.

(** The stub descriptors the compiler constructs, with the constructor
    arguments of each (the isolate apart). *)
Inductive CodeStub : Type :=
  | LoadIndexedInterceptorStub
  | LoadIndexedStringStub
  | KeyedLoadSloppyArgumentsStub
  | LoadFastElementStub (is_js_array : bool) (kind : ElementsKind)
      (convert_hole_to_undefined : bool)
  | LoadDictionaryElementStub (state : LoadICState)
  | ElementsTransitionAndStoreStub (from_kind to_kind : ElementsKind)
      (is_js_array : bool) (store_mode : KeyedAccessStoreMode)
  | KeyedStoreSloppyArgumentsStub (store_mode : KeyedAccessStoreMode)
  | StoreFastElementStub (is_js_array : bool) (kind : ElementsKind)
      (store_mode : KeyedAccessStoreMode)
  | StoreElementStub (kind : ElementsKind) (store_mode : KeyedAccessStoreMode).

Inductive Builtin : Type :=
  | KeyedStoreIC_Slow.

Inductive LogTag : Type :=
  | STORE_MEGAMORPHIC_TAG.

(** A code object is the code of a stub (shared per stub key), a builtin, or
    an object compiled by a PropertyICCompiler, identified by the address it
    was allocated at and carrying the flags it was compiled with. *)
Inductive Code : Type :=
  | StubCode (stub : CodeStub)
  | BuiltinCode (b : Builtin)
  | CompiledCode (address : nat) (compiled_flags : Flags).

(** The [store_mode()] accessor of the keyed-store stubs. *)
Definition stub_store_mode (stub : CodeStub) : option KeyedAccessStoreMode :=
  match stub with
  | ElementsTransitionAndStoreStub _ _ _ store_mode
  | KeyedStoreSloppyArgumentsStub store_mode
  | StoreFastElementStub _ _ store_mode
  | StoreElementStub _ store_mode => Some store_mode
  | _ => None
  end.

#[global] Instance LoadICState_eq_dec : EqDecision LoadICState.
Proof. solve_decision. Defined.
#[global] Instance CodeStub_eq_dec : EqDecision CodeStub.
Proof. solve_decision. Defined.
#[global] Instance Builtin_eq_dec : EqDecision Builtin.
Proof. solve_decision. Defined.
#[global] Instance Code_eq_dec : EqDecision Code.
Proof. solve_decision. Defined.

End Code.

Class Declarations `{E : Enums} : Type := {
  (* objects.h: maps are heap objects, compared by identity *)
  Map : Type;
  Map_eq_dec :: EqDecision Map;
  instance_type : Map -> InstanceType;
  elements_kind : Map -> ElementsKind;
  has_indexed_interceptor : Map -> bool;
  IsStringMap : Map -> bool;
  has_sloppy_arguments_elements : Map -> bool;
  has_fast_elements : Map -> bool;
  has_fixed_typed_array_elements : Map -> bool;
  has_dictionary_elements : Map -> bool;
  FindTransitionedMap : Map -> list Map -> Handle Map;
  (* objects.h: receivers other than small integers *)
  HeapObject : Type;
  HeapObject_map : HeapObject -> Map;
  (* objects.h: Code::ComputeFlags with the default holder, and the header
     fields of code objects that come from stubs and builtins *)
  ComputeFlags : Kind -> InlineCacheState -> ExtraICState -> Flags;
  stub_flags : CodeStub -> Flags;
  builtin_flags : Builtin -> Flags;
  ic_state : Code -> InlineCacheState;
  (* type-feedback-vector.h *)
  FeedbackNexus : Type;
  StateFromFeedback : FeedbackNexus -> InlineCacheState;
  (* ic-state.h: StoreICState(mode).GetExtraICState() *)
  StoreICState_GetExtraICState : LanguageMode -> ExtraICState;
  (* utils.h: BitField<T, shift, size>::encode *)
  ExtraICStateKeyedAccessStoreMode_encode : KeyedAccessStoreMode -> ExtraICState;
  IcCheckTypeField_encode : IcCheckType -> ExtraICState;
  (* ic-compiler.h: default extra state of a PropertyICCompiler *)
  kNoExtraICState : ExtraICState;
  (* isolate.h, factory.h: read-only roots *)
  get_initial_js_array_map : ElementsKind -> Handle Map;
  heap_number_map : Map;
}.

Section IC.

Context `{D : Declarations}.

(** [CodeStub::GetCode]: the code object registered for the stub's key. *)
Definition GetCode (stub : CodeStub) : Handle Code := Some (StubCode stub).

(** [Code::flags]. *)
Definition flags (code : Code) : Flags :=
  match code with
  | StubCode stub => stub_flags stub
  | BuiltinCode b => builtin_flags b
  | CompiledCode _ compiled_flags => compiled_flags
  end.

(** [List<T>::at]: defined only inside the list. *)
Definition at_ {A : Type} (l : list A) (i : nat) : Checked A :=
  match l !! i with
  | Some x => Done x
  | None => Aborted
  end.

(** ** PropertyICCompiler::ComputeKeyedLoadMonomorphicHandler *)

Definition ComputeKeyedLoadMonomorphicHandler (build : BuildMode)
    (receiver_map : Map) (extra_ic_state : ExtraICState) : Checked (Handle Code) :=
  let is_js_array := bool_decide (instance_type receiver_map = JS_ARRAY_TYPE) in
  let elements_kind := elements_kind receiver_map in
  let convert_hole_to_undefined :=
    is_js_array && bool_decide (elements_kind = FAST_HOLEY_ELEMENTS) &&
    bool_decide (Some receiver_map = get_initial_js_array_map elements_kind) in
  if has_indexed_interceptor receiver_map then
    mret (GetCode LoadIndexedInterceptorStub)
  else if IsStringMap receiver_map then
    mret (GetCode LoadIndexedStringStub)
  else if has_sloppy_arguments_elements receiver_map then
    mret (GetCode KeyedLoadSloppyArgumentsStub)
  else if has_fast_elements receiver_map ||
          has_fixed_typed_array_elements receiver_map then
    mret (GetCode (LoadFastElementStub is_js_array elements_kind
                     convert_hole_to_undefined))
  else
    DCHECK build (has_dictionary_elements receiver_map);;
    mret (GetCode (LoadDictionaryElementStub (mkLoadICState extra_ic_state))).

(** ** The compiler object and the keyed-store handlers *)

Record PropertyICCompiler : Type := mkPropertyICCompiler {
  compiler_kind : Kind;
  compiler_extra_ic_state : ExtraICState;
}.

(** [KeyedStoreIC::ComputeExtraICState] (ic.h). *)
Definition KeyedStoreIC_ComputeExtraICState (flag : LanguageMode)
    (mode : KeyedAccessStoreMode) : ExtraICState :=
  Z.lor (Z.lor (StoreICState_GetExtraICState flag)
               (ExtraICStateKeyedAccessStoreMode_encode mode))
        (IcCheckTypeField_encode ELEMENT).

Definition supported_store_mode (store_mode : KeyedAccessStoreMode) : bool :=
  bool_decide (store_mode = STANDARD_STORE) ||
  bool_decide (store_mode = STORE_AND_GROW_NO_TRANSITION) ||
  bool_decide (store_mode = STORE_NO_TRANSITION_IGNORE_OUT_OF_BOUNDS) ||
  bool_decide (store_mode = STORE_NO_TRANSITION_HANDLE_COW).

Definition CompileKeyedStoreMonomorphicHandler (compiler : PropertyICCompiler)
    (receiver_map : Map) (store_mode : KeyedAccessStoreMode) : Handle Code :=
  let elements_kind := elements_kind receiver_map in
  let is_jsarray := bool_decide (instance_type receiver_map = JS_ARRAY_TYPE) in
  if has_sloppy_arguments_elements receiver_map then
    GetCode (KeyedStoreSloppyArgumentsStub store_mode)
  else if has_fast_elements receiver_map ||
          has_fixed_typed_array_elements receiver_map then
    GetCode (StoreFastElementStub is_jsarray elements_kind store_mode)
  else
    GetCode (StoreElementStub elements_kind store_mode).

Definition ComputeKeyedStoreMonomorphicHandler (build : BuildMode)
    (receiver_map : Map) (language_mode : LanguageMode)
    (store_mode : KeyedAccessStoreMode) : Checked (Handle Code) :=
  let extra_state := KeyedStoreIC_ComputeExtraICState language_mode store_mode in
  DCHECK build (supported_store_mode store_mode);;
  let compiler := mkPropertyICCompiler KEYED_STORE_IC extra_state in
  let code := CompileKeyedStoreMonomorphicHandler compiler receiver_map store_mode in
  mret code.

(** The two output lists of the polymorphic computation; [Add] appends. *)
Record StoreHandlerLists : Type := mkStoreHandlerLists {
  transitioned_maps : list (Handle Map);
  handlers : list (Handle Code);
}.

Definition Add {A : Type} (l : list A) (x : A) : list A := l ++ [x].

(** The handler chosen in one iteration of the loop of
    CompileKeyedStorePolymorphicHandlers, from the assignment of
    [transitioned_map] to the last assignment of [cached_stub]. *)
Definition cached_stub_for (receiver_maps : list Map)
    (store_mode : KeyedAccessStoreMode) (receiver_map : Map) : Handle Code :=
  let transitioned_map := FindTransitionedMap receiver_map receiver_maps in
  let is_js_array := bool_decide (instance_type receiver_map = JS_ARRAY_TYPE) in
  let kind := elements_kind receiver_map in
  match transitioned_map with
  | Some to_map =>
      GetCode (ElementsTransitionAndStoreStub kind (elements_kind to_map)
                 is_js_array store_mode)
  | None =>
      if bool_decide (instance_type receiver_map < FIRST_JS_RECEIVER_TYPE) then
        Some (BuiltinCode KeyedStoreIC_Slow)
      else if IsSloppyArgumentsElements kind then
        GetCode (KeyedStoreSloppyArgumentsStub store_mode)
      else if has_fast_elements receiver_map ||
              has_fixed_typed_array_elements receiver_map then
        GetCode (StoreFastElementStub is_js_array kind store_mode)
      else
        GetCode (StoreElementStub kind store_mode)
  end.

(** One iteration of the loop. *)
Definition CompileKeyedStorePolymorphicHandlers_step (build : BuildMode)
    (receiver_maps : list Map) (store_mode : KeyedAccessStoreMode)
    (i : nat) (out : StoreHandlerLists) : Checked StoreHandlerLists :=
  receiver_map ← at_ receiver_maps i;
  let transitioned_map := FindTransitionedMap receiver_map receiver_maps in
  let cached_stub := cached_stub_for receiver_maps store_mode receiver_map in
  DCHECK build (negb (is_null cached_stub));;
  mret {| handlers := Add (handlers out) cached_stub;
          transitioned_maps := Add (transitioned_maps out) transitioned_map |}.

(** [for (int i = 0; i < receiver_maps->length(); ++i)]: [remaining] counts
    the iterations still to run, [i] is the loop index. *)
Fixpoint CompileKeyedStorePolymorphicHandlers_loop (build : BuildMode)
    (receiver_maps : list Map) (store_mode : KeyedAccessStoreMode)
    (remaining i : nat) (out : StoreHandlerLists) : Checked StoreHandlerLists :=
  match remaining with
  | O => mret out
  | S remaining' =>
      out' ← CompileKeyedStorePolymorphicHandlers_step build receiver_maps
               store_mode i out;
      CompileKeyedStorePolymorphicHandlers_loop build receiver_maps store_mode
        remaining' (S i) out'
  end.

Definition CompileKeyedStorePolymorphicHandlers (build : BuildMode)
    (compiler : PropertyICCompiler) (receiver_maps : list Map)
    (out : StoreHandlerLists) (store_mode : KeyedAccessStoreMode)
    : Checked StoreHandlerLists :=
  CompileKeyedStorePolymorphicHandlers_loop build receiver_maps store_mode
    (length receiver_maps) 0%nat out.

Definition ComputeKeyedStorePolymorphicHandlers (build : BuildMode)
    (receiver_maps : list Map) (out : StoreHandlerLists)
    (store_mode : KeyedAccessStoreMode) (language_mode : LanguageMode)
    : Checked StoreHandlerLists :=
  (* receiver_maps->at(0)->GetIsolate() *)
  _ ← at_ receiver_maps 0%nat;
  DCHECK build (supported_store_mode store_mode);;
  let extra_state := KeyedStoreIC_ComputeExtraICState language_mode store_mode in
  let compiler := mkPropertyICCompiler KEYED_STORE_IC extra_state in
  CompileKeyedStorePolymorphicHandlers build compiler receiver_maps out store_mode.

(** ** The megamorphic store handler and the non-monomorphic cache *)

(** The parts of the isolate that ComputeStore reads and writes: the
    non-monomorphic cache root (an UnseededNumberDictionary from flags to
    code), the allocation top of the code space and the profiler's log. *)
Record Isolate : Type := mkIsolate {
  non_monomorphic_cache : gmap N Code;
  code_space_top : nat;
  code_events : list (LogTag * Code);
}.

Definition Heap (A : Type) : Type := Isolate -> Checked (A * Isolate).

Definition heap_ret {A : Type} (a : A) : Heap A := fun isolate => Done (a, isolate).

Definition heap_bind {A B : Type} (m : Heap A) (f : A -> Heap B) : Heap B :=
  fun isolate =>
    match m isolate with
    | Done (a, isolate') => f a isolate'
    | Aborted => Aborted
    end.

Definition heap_check (c : Checked unit) : Heap unit :=
  fun isolate =>
    match c with
    | Done _ => Done (tt, isolate)
    | Aborted => Aborted
    end.

(** Modelled from the spec: PropertyAccessCompiler::GetCodeWithFlags, whose
    definition (handler-compiler) is absent.  A handler is synthesized: a
    new immutable code object is allocated, carrying the requested flags. *)
Definition GetCodeWithFlags (flags : Flags) (name : string) : Heap (Handle Code) :=
  fun isolate =>
    let code := CompiledCode (code_space_top isolate) flags in
    Done (Some code,
          {| non_monomorphic_cache := non_monomorphic_cache isolate;
             code_space_top := S (code_space_top isolate);
             code_events := code_events isolate |}).

(** [PROFILE(isolate, CodeCreateEvent(tag, code, 0))]. *)
Definition CodeCreateEvent (tag : LogTag) (code : Handle Code) : Heap unit :=
  fun isolate =>
    match code with
    | Some c =>
        Done (tt,
              {| non_monomorphic_cache := non_monomorphic_cache isolate;
                 code_space_top := code_space_top isolate;
                 code_events := code_events isolate ++ [(tag, c)] |})
    | None => Aborted
    end.

Definition CompileStoreMegamorphic (compiler : PropertyICCompiler)
    (flags : Flags) : Heap (Handle Code) :=
  (* StoreIC::GenerateMegamorphic(masm()) emits the body of the new object *)
  heap_bind (GetCodeWithFlags flags "CompileStoreMegamorphic") (fun code =>
  heap_bind (CodeCreateEvent STORE_MEGAMORPHIC_TAG code) (fun _ =>
  heap_ret code)).

Definition FillCache (code : Handle Code) : Heap unit :=
  fun isolate =>
    match code with
    | Some c =>
        let dictionary := <[flags c := c]> (non_monomorphic_cache isolate) in
        Done (tt,
              {| non_monomorphic_cache := dictionary;
                 code_space_top := code_space_top isolate;
                 code_events := code_events isolate |})
    | None => Aborted
    end.

Definition ComputeStore (build : BuildMode) (ic_state : InlineCacheState)
    (extra_state : ExtraICState) : Heap (Handle Code) :=
  heap_bind (heap_check (DCHECK build (bool_decide (MEGAMORPHIC = ic_state))))
    (fun _ =>
  let flags := ComputeFlags STORE_IC ic_state extra_state in
  fun isolate =>
    let cache := non_monomorphic_cache isolate in
    (* entry = cache->FindEntry(flags); entry != -1 *)
    match cache !! flags with
    | Some value => Done (Some value, isolate)
    | None =>
        let compiler := mkPropertyICCompiler STORE_IC kNoExtraICState in
        heap_bind (CompileStoreMegamorphic compiler flags) (fun code =>
        heap_bind (FillCache code) (fun _ =>
        heap_ret code)) isolate
    end).

(** ** The IC base class (ic.h) *)

Inductive Object : Type :=
  | Smi (value : Z)
  | HeapObjectRef (o : HeapObject).

Definition IsSmi (o : Object) : bool :=
  match o with
  | Smi _ => true
  | HeapObjectRef _ => false
  end.

Record IC : Type := mkIC {
  vector_set_ : bool;
  old_state_ : InlineCacheState;
  state_ : InlineCacheState;
  kind_ : Kind;
  receiver_map_ : Handle Map;
  maybe_handler_ : Handle Code;
  extra_ic_state_ : ExtraICState;
  target_maps_ : list Map;
  target_maps_set_ : bool;
  nexus_ : Handle FeedbackNexus;
}.

Definition state (ic : IC) : InlineCacheState := state_ ic.

Definition set_states (ic : IC) (old new : InlineCacheState) : IC :=
  {| vector_set_ := vector_set_ ic;
     old_state_ := old;
     state_ := new;
     kind_ := kind_ ic;
     receiver_map_ := receiver_map_ ic;
     maybe_handler_ := maybe_handler_ ic;
     extra_ic_state_ := extra_ic_state_ ic;
     target_maps_ := target_maps_ ic;
     target_maps_set_ := target_maps_set_ ic;
     nexus_ := nexus_ ic |}.

Definition set_receiver_map (ic : IC) (m : Handle Map) : IC :=
  {| vector_set_ := vector_set_ ic;
     old_state_ := old_state_ ic;
     state_ := state_ ic;
     kind_ := kind_ ic;
     receiver_map_ := m;
     maybe_handler_ := maybe_handler_ ic;
     extra_ic_state_ := extra_ic_state_ ic;
     target_maps_ := target_maps_ ic;
     target_maps_set_ := target_maps_set_ ic;
     nexus_ := nexus_ ic |}.

(** ic.cc's RecomputeHandlerForName is only declared in ic.h. *)
Variable RecomputeHandlerForName : IC -> Object -> bool.

Definition MarkRecomputeHandler (build : BuildMode) (ic : IC) (name : Object)
    : Checked IC :=
  DCHECK build (RecomputeHandlerForName ic name);;
  mret (set_states ic (state_ ic) RECOMPUTE_HANDLER).

Definition saved_state (ic : IC) : InlineCacheState :=
  if bool_decide (state ic = RECOMPUTE_HANDLER) then old_state_ ic else state ic.

(** The two overloads of IC::IsCleared; [FLAG_use_ic] is the runtime flag. *)
Definition IsCleared_code (FLAG_use_ic : bool) (code : Code) : bool :=
  let state := ic_state code in
  negb FLAG_use_ic || bool_decide (state = UNINITIALIZED) ||
  bool_decide (state = PREMONOMORPHIC).

Definition IsCleared (FLAG_use_ic : bool) (nexus : FeedbackNexus) : bool :=
  let state := StateFromFeedback nexus in
  negb FLAG_use_ic || bool_decide (state = UNINITIALIZED) ||
  bool_decide (state = PREMONOMORPHIC).

Definition receiver_map (ic : IC) : Handle Map := receiver_map_ ic.

(** The two branches of [receiver->IsSmi()]; the second one casts the
    receiver to a heap object and reads its map. *)
Definition update_receiver_map (ic : IC) (receiver : Object) : IC :=
  match receiver with
  | Smi _ => set_receiver_map ic (Some heap_number_map)
  | HeapObjectRef o => set_receiver_map ic (Some (HeapObject_map o))
  end.

End IC.

Arguments MarkRecomputeHandler {E D} RecomputeHandlerForName build ic name.

(** ** A small concrete heap

    One instance of the interfaces, used to run the definitions: a handful of
    maps with the attributes the compiler queries. *)

Module Sample.

Inductive kind : Type :=
  | K_FAST_SMI | K_FAST_HOLEY_SMI | K_FAST | K_FAST_HOLEY
  | K_DICTIONARY | K_FAST_SLOPPY_ARGUMENTS | K_UINT8.

Inductive ic_state_t : Type :=
  | S_UNINITIALIZED | S_PREMONOMORPHIC | S_MONOMORPHIC | S_POLYMORPHIC
  | S_MEGAMORPHIC | S_GENERIC | S_RECOMPUTE_HANDLER.

Inductive store_mode_t : Type :=
  | M_STANDARD_STORE | M_STORE_TRANSITION_TO_OBJECT | M_STORE_TRANSITION_TO_DOUBLE
  | M_STORE_AND_GROW_NO_TRANSITION | M_STORE_AND_GROW_TRANSITION_TO_OBJECT
  | M_STORE_AND_GROW_TRANSITION_TO_DOUBLE
  | M_STORE_NO_TRANSITION_IGNORE_OUT_OF_BOUNDS | M_STORE_NO_TRANSITION_HANDLE_COW.

Inductive language_mode_t : Type := L_SLOPPY | L_STRICT.
Inductive check_type_t : Type := T_ELEMENT | T_PROPERTY.
Inductive code_kind_t : Type := C_LOAD_IC | C_KEYED_LOAD_IC | C_STORE_IC | C_KEYED_STORE_IC.

#[global] Instance kind_eq_dec : EqDecision kind.
Proof. solve_decision. Defined.
#[global] Instance ic_state_eq_dec : EqDecision ic_state_t.
Proof. solve_decision. Defined.
#[global] Instance store_mode_eq_dec : EqDecision store_mode_t.
Proof. solve_decision. Defined.

Definition store_mode_index (m : store_mode_t) : Z :=
  match m with
  | M_STANDARD_STORE => 0 | M_STORE_TRANSITION_TO_OBJECT => 1
  | M_STORE_TRANSITION_TO_DOUBLE => 2 | M_STORE_AND_GROW_NO_TRANSITION => 3
  | M_STORE_AND_GROW_TRANSITION_TO_OBJECT => 4
  | M_STORE_AND_GROW_TRANSITION_TO_DOUBLE => 5
  | M_STORE_NO_TRANSITION_IGNORE_OUT_OF_BOUNDS => 6
  | M_STORE_NO_TRANSITION_HANDLE_COW => 7
  end.

Definition ic_state_index (s : ic_state_t) : N :=
  match s with
  | S_UNINITIALIZED => 0 | S_PREMONOMORPHIC => 1 | S_MONOMORPHIC => 2
  | S_POLYMORPHIC => 3 | S_MEGAMORPHIC => 4 | S_GENERIC => 5
  | S_RECOMPUTE_HANDLER => 6
  end%N.

Definition code_kind_index (k : code_kind_t) : N :=
  match k with
  | C_LOAD_IC => 0 | C_KEYED_LOAD_IC => 1 | C_STORE_IC => 2 | C_KEYED_STORE_IC => 3
  end%N.

#[global] Instance enums : Enums := {|
  ElementsKind := kind;
  FAST_HOLEY_ELEMENTS := K_FAST_HOLEY;
  IsSloppyArgumentsElements := fun k =>
    match k with K_FAST_SLOPPY_ARGUMENTS => true | _ => false end;
  JS_ARRAY_TYPE := 190;
  FIRST_JS_RECEIVER_TYPE := 180;
  InlineCacheState := ic_state_t;
  UNINITIALIZED := S_UNINITIALIZED;
  PREMONOMORPHIC := S_PREMONOMORPHIC;
  MEGAMORPHIC := S_MEGAMORPHIC;
  RECOMPUTE_HANDLER := S_RECOMPUTE_HANDLER;
  KeyedAccessStoreMode := store_mode_t;
  STANDARD_STORE := M_STANDARD_STORE;
  STORE_AND_GROW_NO_TRANSITION := M_STORE_AND_GROW_NO_TRANSITION;
  STORE_NO_TRANSITION_IGNORE_OUT_OF_BOUNDS := M_STORE_NO_TRANSITION_IGNORE_OUT_OF_BOUNDS;
  STORE_NO_TRANSITION_HANDLE_COW := M_STORE_NO_TRANSITION_HANDLE_COW;
  LanguageMode := language_mode_t;
  IcCheckType := check_type_t;
  ELEMENT := T_ELEMENT;
  Kind := code_kind_t;
  STORE_IC := C_STORE_IC;
  KEYED_STORE_IC := C_KEYED_STORE_IC;
|}.

(** The maps of the sample heap. *)
Inductive map_t : Type :=
  | initial_holey_array_map      (* [,1]: the canonical holey array map *)
  | subclass_holey_array_map     (* class A extends Array, holey *)
  | initial_packed_smi_array_map (* [1,2,3] *)
  | initial_holey_smi_array_map  (* [,1] of small integers *)
  | interceptor_object_map       (* API object with an indexed interceptor *)
  | string_map
  | sloppy_arguments_map
  | uint8_array_map
  | dictionary_object_map
  | plain_object_map
  | number_map.

#[global] Instance map_eq_dec : EqDecision map_t.
Proof. solve_decision. Defined.

Definition map_instance_type (m : map_t) : InstanceType :=
  match m with
  | initial_holey_array_map | subclass_holey_array_map
  | initial_packed_smi_array_map | initial_holey_smi_array_map => 190
  | interceptor_object_map => 184
  | string_map => 0
  | sloppy_arguments_map => 188
  | uint8_array_map => 195
  | dictionary_object_map | plain_object_map => 185
  | number_map => 130
  end.

Definition map_elements_kind (m : map_t) : kind :=
  match m with
  | initial_holey_array_map | subclass_holey_array_map => K_FAST_HOLEY
  | initial_packed_smi_array_map => K_FAST_SMI
  | initial_holey_smi_array_map => K_FAST_HOLEY_SMI
  | interceptor_object_map | plain_object_map => K_FAST_HOLEY
  | string_map | number_map => K_FAST_HOLEY
  | sloppy_arguments_map => K_FAST_SLOPPY_ARGUMENTS
  | uint8_array_map => K_UINT8
  | dictionary_object_map => K_DICTIONARY
  end.

Definition kind_is_fast (k : kind) : bool :=
  match k with
  | K_FAST_SMI | K_FAST_HOLEY_SMI | K_FAST | K_FAST_HOLEY => true
  | _ => false
  end.

(** A packed small-integer array map generalizes to the holey map of the
    same constructor when that map is among the candidates. *)
Definition find_transitioned_map (m : map_t) (candidates : list map_t) : Handle map_t :=
  match m with
  | initial_packed_smi_array_map =>
      if bool_decide (initial_holey_array_map ∈ candidates)
      then Some initial_holey_array_map else None
  | _ => None
  end.

Inductive heap_object_t : Type :=
  | a_heap_number | a_holey_array | a_plain_object.

Inductive nexus_t : Type := mk_nexus (feedback : ic_state_t).

#[global] Instance declarations : Declarations := {|
  Map := map_t;
  instance_type := map_instance_type;
  elements_kind := map_elements_kind;
  has_indexed_interceptor := fun m =>
    match m with interceptor_object_map => true | _ => false end;
  IsStringMap := fun m => match m with string_map => true | _ => false end;
  has_sloppy_arguments_elements := fun m =>
    match map_elements_kind m with K_FAST_SLOPPY_ARGUMENTS => true | _ => false end;
  has_fast_elements := fun m => kind_is_fast (map_elements_kind m);
  has_fixed_typed_array_elements := fun m =>
    match map_elements_kind m with K_UINT8 => true | _ => false end;
  has_dictionary_elements := fun m =>
    match map_elements_kind m with K_DICTIONARY => true | _ => false end;
  FindTransitionedMap := find_transitioned_map;
  HeapObject := heap_object_t;
  HeapObject_map := fun o =>
    match o with
    | a_heap_number => number_map
    | a_holey_array => initial_holey_array_map
    | a_plain_object => plain_object_map
    end;
  ComputeFlags := fun k s extra =>
    (code_kind_index k + 8 * ic_state_index s + 64 * Z.to_N extra)%N;
  stub_flags := fun _ => 4%N;
  builtin_flags := fun _ => 5%N;
  ic_state := fun c =>
    match c with
    | CompiledCode _ _ => S_MEGAMORPHIC
    | _ => S_MONOMORPHIC
    end;
  FeedbackNexus := nexus_t;
  StateFromFeedback := fun n => match n with mk_nexus s => s end;
  StoreICState_GetExtraICState := fun l =>
    match l with L_SLOPPY => 0 | L_STRICT => 2 end;
  ExtraICStateKeyedAccessStoreMode_encode := fun m => Z.shiftl (store_mode_index m) 3;
  IcCheckTypeField_encode := fun t =>
    match t with T_ELEMENT => 0 | T_PROPERTY => Z.shiftl 1 6 end;
  kNoExtraICState := 0;
  get_initial_js_array_map := fun k =>
    match k with
    | K_FAST_HOLEY => Some initial_holey_array_map
    | K_FAST_SMI => Some initial_packed_smi_array_map
    | K_FAST_HOLEY_SMI => Some initial_holey_smi_array_map
    | _ => None
    end;
  heap_number_map := number_map;
|}.

Definition empty_isolate : Isolate :=
  {| non_monomorphic_cache := ∅; code_space_top := 0; code_events := [] |}.

Definition an_ic (s : ic_state_t) : IC :=
  {| vector_set_ := false; old_state_ := S_UNINITIALIZED; state_ := s;
     kind_ := C_KEYED_STORE_IC; receiver_map_ := None; maybe_handler_ := None;
     extra_ic_state_ := 0; target_maps_ := []; target_maps_set_ := false;
     nexus_ := Some (mk_nexus s) |}.

End Sample.

(** ** More of the IC base class (ic.h) *)

Section ICTargets.

Context `{D : Declarations}.

(** The other IC kinds that ic.h names, equality on [Code::Kind], and
    [FeedbackNexus::ExtractMaps] (type-feedback-vector.h), which appends the
    maps recorded in the feedback to the list it is given. *)
Context {Kind_eq_dec : EqDecision Kind}.
Variables LOAD_IC KEYED_LOAD_IC CALL_IC : Kind.
Variable ExtractMaps : FeedbackNexus -> list Map.

Definition ICUseVector (kind : Kind) : bool :=
  bool_decide (kind = LOAD_IC) || bool_decide (kind = KEYED_LOAD_IC) ||
  bool_decide (kind = CALL_IC) || bool_decide (kind = STORE_IC) ||
  bool_decide (kind = KEYED_STORE_IC).

Definition UseVector (build : BuildMode) (ic : IC) : Checked bool :=
  let use := ICUseVector (kind_ ic) in
  (* If we are supposed to use the nexus, verify the nexus is non-null. *)
  DCHECK build (negb use || negb (is_null (nexus_ ic)));;
  mret use.



Definition set_target_maps (ic : IC) (maps : list Map) (set : bool) : IC :=
  {| vector_set_ := vector_set_ ic;
     old_state_ := old_state_ ic;
     state_ := state_ ic;
     kind_ := kind_ ic;
     receiver_map_ := receiver_map_ ic;
     maybe_handler_ := maybe_handler_ ic;
     extra_ic_state_ := extra_ic_state_ ic;
     target_maps_ := maps;
     target_maps_set_ := set;
     nexus_ := nexus_ ic |}.

(** [DCHECK(UseVector())]: its argument, itself asserting, is evaluated in
    debug builds only. *)
Definition DCHECK_UseVector (build : BuildMode) (ic : IC) : Checked unit :=
  match build with
  | ReleaseBuild => Done tt
  | DebugBuild => use ← UseVector DebugBuild ic; DCHECK DebugBuild use
  end.

Definition FindTargetMaps (build : BuildMode) (ic : IC) : Checked IC :=
  if target_maps_set_ ic then mret ic
  else
    let ic := set_target_maps ic (target_maps_ ic) true in
    DCHECK_UseVector build ic;;
    (* nexus()->ExtractMaps(&target_maps_) *)
    match nexus_ ic with
    | Some nexus =>
        mret (set_target_maps ic (target_maps_ ic ++ ExtractMaps nexus) true)
    | None => Aborted
    end.

Definition TargetMaps (build : BuildMode) (ic : IC) (maps : list Map)
    : Checked (IC * list Map) :=
  ic ← FindTargetMaps build ic;
  (* for (i = 0; i < target_maps_.length(); i++) list->Add(target_maps_.at(i)) *)
  mret (ic, fold_left Add (target_maps_ ic) maps).

Definition FirstTargetMap (build : BuildMode) (ic : IC)
    : Checked (IC * Handle Map) :=
  ic ← FindTargetMaps build ic;
  mret (ic, if bool_decide (0 < length (target_maps_ ic))%nat
            then target_maps_ ic !! 0%nat else None).

End ICTargets.

(** ** Vocabulary for the properties of the handler caches *)

Section CacheVocabulary.

Context `{D : Declarations}.

(** Every entry of the non-monomorphic cache sits under its own flags. *)
Definition cache_consistent (cache : gmap N Code) : Prop :=
  forall (key : N) (code : Code), cache !! key = Some code -> flags code = key.

Definition is_transition_stub (handler : Handle Code) : bool :=
  match handler with
  | Some (StubCode (ElementsTransitionAndStoreStub _ _ _ _)) => true
  | _ => false
  end.

Definition handler_store_mode (handler : Handle Code) : option KeyedAccessStoreMode :=
  match handler with
  | Some (StubCode stub) => stub_store_mode stub
  | _ => None
  end.

End CacheVocabulary.

(** ** The regular-expression parser (the second part of src/ic/ic.h)

    The scanner of RegExpParser, its numeric sub-parsers and the test on the
    stack of parser states.  Code units and code points are integers; the
    input is the list of the pattern's 16-bit code units. *)

Module RegExp.

Record RegExpParser : Type := mkRegExpParser {
  in_ : list Z;
  error_ : Handle string;
  current_ : Z;
  ignore_case_ : bool;
  multiline_ : bool;
  unicode_ : bool;
  next_pos_ : Z;
  captures_started_ : Z;
  capture_count_ : Z;
  has_more_ : bool;
  simple_ : bool;
  contains_anchor_ : bool;
  is_scanned_for_captures_ : bool;
  failed_ : bool;
}.

(** What regexp-parser.h, char-predicates, utils.h, unicode.h, regexp-ast.h
    and the isolate contribute: constants, character predicates and the two
    resource checks that Advance consults. *)
Class Declarations : Type := {
  kEndMarker : Z;
  kMaxCaptures : Z;
  kInfinity : Z;
  IsDecimalDigit : Z -> bool;
  HexValue : Z -> Z;
  IsLeadSurrogate : Z -> bool;
  IsTrailSurrogate : Z -> bool;
  CombineSurrogatePair : Z -> Z -> Z;
  HasOverflowed : RegExpParser -> bool;
  excess_allocation : RegExpParser -> bool;
  kStackOverflowMessage : string;
}.

Section Parser.

Context `{R : Declarations}.

(** Field updates. *)
Definition set_scanner (p : RegExpParser) (current next_pos : Z) (has_more : bool)
    : RegExpParser :=
  {| in_ := in_ p; error_ := error_ p; current_ := current;
     ignore_case_ := ignore_case_ p; multiline_ := multiline_ p;
     unicode_ := unicode_ p; next_pos_ := next_pos;
     captures_started_ := captures_started_ p;
     capture_count_ := capture_count_ p; has_more_ := has_more;
     simple_ := simple_ p; contains_anchor_ := contains_anchor_ p;
     is_scanned_for_captures_ := is_scanned_for_captures_ p;
     failed_ := failed_ p |}.

Definition set_error (p : RegExpParser) (message : string) : RegExpParser :=
  {| in_ := in_ p; error_ := Some message; current_ := current_ p;
     ignore_case_ := ignore_case_ p; multiline_ := multiline_ p;
     unicode_ := unicode_ p; next_pos_ := next_pos_ p;
     captures_started_ := captures_started_ p;
     capture_count_ := capture_count_ p; has_more_ := has_more_ p;
     simple_ := simple_ p; contains_anchor_ := contains_anchor_ p;
     is_scanned_for_captures_ := is_scanned_for_captures_ p;
     failed_ := true |}.

Definition set_capture_count (p : RegExpParser) (capture_count : Z) : RegExpParser :=
  {| in_ := in_ p; error_ := error_ p; current_ := current_ p;
     ignore_case_ := ignore_case_ p; multiline_ := multiline_ p;
     unicode_ := unicode_ p; next_pos_ := next_pos_ p;
     captures_started_ := captures_started_ p;
     capture_count_ := capture_count; has_more_ := has_more_ p;
     simple_ := simple_ p; contains_anchor_ := contains_anchor_ p;
     is_scanned_for_captures_ := true;
     failed_ := failed_ p |}.

(** The accessors of regexp-parser.h.  [position] is one behind [next_pos_]:
    Advance sets [next_pos_] to the length plus one so that position()
    points to one after the last character. *)
Definition current (p : RegExpParser) : Z := current_ p.
Definition has_more (p : RegExpParser) : bool := has_more_ p.
Definition unicode (p : RegExpParser) : bool := unicode_ p.
Definition failed (p : RegExpParser) : bool := failed_ p.
Definition captures_started (p : RegExpParser) : Z := captures_started_ p.
Definition in_length (p : RegExpParser) : Z := Z.of_nat (length (in_ p)).
Definition has_next (p : RegExpParser) : bool :=
  bool_decide (next_pos_ p < in_length p).
Definition position (p : RegExpParser) : Z := next_pos_ p - 1.

(** [FlatStringReader::Get]; reads outside the string give 0 here. *)
Definition Get (p : RegExpParser) (index : Z) : Z :=
  if bool_decide (0 <= index) then default 0 (in_ p !! Z.to_nat index) else 0.

(** [static_cast<uc16>]. *)
Definition to_uc16 (c : Z) : Z := Z.land c 65535.

(** [ReadNext<update_position>]: the character at [next_pos_], a whole
    surrogate pair with the unicode flag, and the parser with [next_pos_]
    moved behind it when [update_position] is set. *)
Definition ReadNext (update_position : bool) (p : RegExpParser) : Z * RegExpParser :=
  let position := next_pos_ p in
  let c0 := Get p position in
  let position := position + 1 in
  let '(c0, position) :=
    if unicode p && bool_decide (position < in_length p) &&
       IsLeadSurrogate (to_uc16 c0) then
      let c1 := Get p position in
      if IsTrailSurrogate c1
      then (CombineSurrogatePair (to_uc16 c0) c1, position + 1)
      else (c0, position)
    else (c0, position) in
  (c0, if update_position
       then set_scanner p (current_ p) position (has_more_ p)
       else p).

Definition Next (p : RegExpParser) : Z :=
  if has_next p then fst (ReadNext false p) else kEndMarker.

(** [ReportError]: records the message and zips to the end of the input;
    its NULL result is left to the callers. *)
Definition ReportError (p : RegExpParser) (message : string) : RegExpParser :=
  let p := set_error p message in
  set_scanner p kEndMarker (in_length p) (has_more_ p).

Definition Advance (p : RegExpParser) : RegExpParser :=
  if has_next p then
    if HasOverflowed p then ReportError p kStackOverflowMessage
    else if excess_allocation p then ReportError p "Regular expression too large"
    else
      let '(c, p) := ReadNext true p in
      set_scanner p c (next_pos_ p) (has_more_ p)
  else
    set_scanner p kEndMarker (in_length p + 1) false.

Definition Reset (p : RegExpParser) (pos : Z) : RegExpParser :=
  Advance (set_scanner p (current_ p) pos (bool_decide (pos < in_length p))).

(** [Advance(int dist)]. *)
Definition Advance_by (p : RegExpParser) (dist : Z) : RegExpParser :=
  Advance (set_scanner p (current_ p) (next_pos_ p + (dist - 1)) (has_more_ p)).

(** The constructor: the flags are already decoded into the three
    booleans. *)
Definition new_RegExpParser (input : list Z) (error : Handle string)
    (ignore_case multiline unicode : bool) : RegExpParser :=
  Advance {| in_ := input; error_ := error; current_ := kEndMarker;
             ignore_case_ := ignore_case; multiline_ := multiline;
             unicode_ := unicode; next_pos_ := 0; captures_started_ := 0;
             capture_count_ := 0; has_more_ := true; simple_ := false;
             contains_anchor_ := false; is_scanned_for_captures_ := false;
             failed_ := false |}.

Definition IsSyntaxCharacterOrSlash (c : Z) : bool :=
  bool_decide (c ∈ [94; 36; 92; 46; 42; 43; 63; 40; 41; 91; 93; 123; 125; 124; 47]).

(** *** Numeric sub-parsers *)

Definition is_octal_digit (c : Z) : bool :=
  bool_decide (48 <= c) && bool_decide (c <= 55).

Definition ParseOctalLiteral (build : BuildMode) (p : RegExpParser)
    : Checked (Z * RegExpParser) :=
  DCHECK build (is_octal_digit (current p) || bool_decide (current p = kEndMarker));;
  (* For compatibility with some other browsers (not all), we parse
     up to three octal digits with a value below 256. *)
  let value := current p - 48 in
  let p := Advance p in
  if is_octal_digit (current p) then
    let value := value * 8 + current p - 48 in
    let p := Advance p in
    if bool_decide (value < 32) && is_octal_digit (current p) then
      let value := value * 8 + current p - 48 in
      let p := Advance p in
      mret (value, p)
    else mret (value, p)
  else mret (value, p).

(** The loop of ParseHexEscape, [n] iterations to go; [value] is the
    caller's variable, written on success only. *)
Fixpoint ParseHexEscape_loop (n : nat) (start val value : Z) (p : RegExpParser)
    : bool * Z * RegExpParser :=
  match n with
  | O => (true, val, p)
  | S n' =>
      let c := current p in
      let d := HexValue c in
      if bool_decide (d < 0) then (false, value, Reset p start)
      else ParseHexEscape_loop n' start (val * 16 + d) value (Advance p)
  end.

Definition ParseHexEscape (p : RegExpParser) (length value : Z)
    : bool * Z * RegExpParser :=
  let start := position p in
  ParseHexEscape_loop (Z.to_nat length) start 0 value p.

(** The loop of ParseUnlimitedLengthHexNumber; [None] when the iterations
    allowed by [fuel] do not reach its end. *)
Fixpoint ParseUnlimitedLengthHexNumber_loop (fuel : nat) (max_value x d value : Z)
    (p : RegExpParser) : option (bool * Z * RegExpParser) :=
  if bool_decide (d >= 0) then
    match fuel with
    | O => None
    | S fuel' =>
        let x := x * 16 + d in
        if bool_decide (x > max_value) then Some (false, value, p)
        else
          let p := Advance p in
          let d := HexValue (current p) in
          ParseUnlimitedLengthHexNumber_loop fuel' max_value x d value p
    end
  else Some (true, x, p).

Definition ParseUnlimitedLengthHexNumber (fuel : nat) (p : RegExpParser)
    (max_value value : Z) : option (bool * Z * RegExpParser) :=
  let x := 0 in
  let d := HexValue (current p) in
  if bool_decide (d < 0) then Some (false, value, p)
  else ParseUnlimitedLengthHexNumber_loop fuel max_value x d value p.

(** [ParseUnicodeEscape]: [\u{...}] with the unicode flag, else four hex
    digits, joined with a following [\uXXXX] trail surrogate under the
    unicode flag.  The local [trail] is read after a successful
    ParseHexEscape only, which has written it; it starts as 0 here. *)
Definition ParseUnicodeEscape (fuel : nat) (p : RegExpParser) (value : Z)
    : option (bool * Z * RegExpParser) :=
  if bool_decide (current p = 123) && unicode p then
    let start := position p in
    let p := Advance p in
    '(ok, value, p) ← ParseUnlimitedLengthHexNumber fuel p 1114111 value;
    if ok && bool_decide (current p = 125) then Some (true, value, Advance p)
    else Some (false, value, Reset p start)
  else
    (* \u but no {, or \u{...} escapes not allowed. *)
    let '(result, value, p) := ParseHexEscape p 4 value in
    if result && unicode p && IsLeadSurrogate value && bool_decide (current p = 92) then
      (* Attempt to read trail surrogate. *)
      let start := position p in
      if bool_decide (Next p = 117) then
        let p := Advance_by p 2 in
        let '(ok, trail, p) := ParseHexEscape p 4 0 in
        if ok && IsTrailSurrogate trail then
          Some (true, CombineSurrogatePair (to_uc16 value) (to_uc16 trail), p)
        else Some (result, value, Reset p start)
      else Some (result, value, Reset p start)
    else Some (result, value, p).




(** *** Counting capture groups and parsing back references *)

(** The inner loop of ScanForCaptures, which skips a character class:
    [while ((c = current()) != kEndMarker) { ... }]. *)
Fixpoint ScanForCaptures_class (fuel : nat) (p : RegExpParser) : option RegExpParser :=
  let c := current p in
  if bool_decide (c <> kEndMarker) then
    match fuel with
    | O => None
    | S fuel' =>
        let p := Advance p in
        if bool_decide (c = 92) then ScanForCaptures_class fuel' (Advance p)
        else if bool_decide (c = 93) then Some p
        else ScanForCaptures_class fuel' p
    end
  else Some p.

(** The outer loop: [while ((n = current()) != kEndMarker) { ... }]. *)
Fixpoint ScanForCaptures_loop (fuel : nat) (capture_count : Z) (p : RegExpParser)
    : option (Z * RegExpParser) :=
  let n := current p in
  if bool_decide (n <> kEndMarker) then
    match fuel with
    | O => None
    | S fuel' =>
        let p := Advance p in
        if bool_decide (n = 92) then
          ScanForCaptures_loop fuel' capture_count (Advance p)
        else if bool_decide (n = 91) then
          p ← ScanForCaptures_class fuel' p;
          ScanForCaptures_loop fuel' capture_count p
        else if bool_decide (n = 40) then
          ScanForCaptures_loop fuel'
            (if bool_decide (current p <> 63) then capture_count + 1
             else capture_count) p
        else ScanForCaptures_loop fuel' capture_count p
    end
  else Some (capture_count, p).

Definition ScanForCaptures (fuel : nat) (p : RegExpParser) : option RegExpParser :=
  (* Start with captures started previous to current position *)
  let capture_count := captures_started p in
  '(capture_count, p) ← ScanForCaptures_loop fuel capture_count p;
  Some (set_capture_count p capture_count).

(** The digit loop of ParseBackReferenceIndex; [inl] is the early
    [Reset(start); return false]. *)
Fixpoint ParseBackReferenceIndex_digits (fuel : nat) (start value : Z)
    (p : RegExpParser) : option (RegExpParser + Z * RegExpParser) :=
  let c := current p in
  if IsDecimalDigit c then
    match fuel with
    | O => None
    | S fuel' =>
        let value := 10 * value + (c - 48) in
        if bool_decide (value > kMaxCaptures) then Some (inl (Reset p start))
        else ParseBackReferenceIndex_digits fuel' start value (Advance p)
    end
  else Some (inr (value, p)).

Definition ParseBackReferenceIndex (build : BuildMode) (fuel : nat)
    (p : RegExpParser) (index_out : Z)
    : option (Checked (bool * Z * RegExpParser)) :=
  match
    DCHECK build (bool_decide (92 = current p));;
    DCHECK build (bool_decide (49 <= Next p) && bool_decide (Next p <= 57))
  with
  | Aborted => Some Aborted
  | Done _ =>
      (* Try to parse a decimal literal that is no greater than the total
         number of left capturing parentheses in the input. *)
      let start := position p in
      let value := Next p - 48 in
      let p := Advance_by p 2 in
      r ← ParseBackReferenceIndex_digits fuel start value p;
      match r with
      | inl p => Some (Done (false, index_out, p))
      | inr (value, p) =>
          if bool_decide (value > captures_started p) then
            p ← (if negb (is_scanned_for_captures_ p) then
                   let saved_position := position p in
                   p ← ScanForCaptures fuel p;
                   Some (Reset p saved_position)
                 else Some p);
            if bool_decide (value > capture_count_ p)
            then Some (Done (false, index_out, Reset p start))
            else Some (Done (true, value, p))
          else Some (Done (true, value, p))
      end
  end.

End Parser.

(** *** The stack of parser states *)

Inductive SubexpressionType : Type :=
  | INITIAL
  | CAPTURE
  | POSITIVE_LOOKAROUND
  | NEGATIVE_LOOKAROUND
  | GROUPING.

Inductive LookaroundType : Type :=
  | LOOKAHEAD
  | LOOKBEHIND.

#[global] Instance SubexpressionType_eq_dec : EqDecision SubexpressionType.
Proof. solve_decision. Defined.

(** A RegExpParserState with its chain of previous states; the builder it
    owns plays no part here. *)
#[warnings="-register-all"]
Inductive RegExpParserState : Type :=
  | mkRegExpParserState (previous_state : option RegExpParserState)
      (group_type : SubexpressionType) (lookaround_type : LookaroundType)
      (capture_index : Z).

Definition previous_state (s : RegExpParserState) : option RegExpParserState :=
  match s with mkRegExpParserState previous _ _ _ => previous end.
Definition group_type (s : RegExpParserState) : SubexpressionType :=
  match s with mkRegExpParserState _ type _ _ => type end.
Definition capture_index (s : RegExpParserState) : Z :=
  match s with mkRegExpParserState _ _ _ index => index end.
Definition IsSubexpression (s : RegExpParserState) : bool :=
  negb (is_null (previous_state s)).

Fixpoint IsInsideCaptureGroup (s : RegExpParserState) (index : Z) : bool :=
  match s with
  | mkRegExpParserState previous type _ capture_index =>
      let continue :=
        match previous with
        | Some s' => IsInsideCaptureGroup s' index
        | None => false
        end in
      if negb (bool_decide (type = CAPTURE)) then continue
      (* Return true if we found the matching capture index. *)
      else if bool_decide (index = capture_index) then true
      (* Abort if index is larger than what has been parsed up till this state. *)
      else if bool_decide (index > capture_index) then false
      else continue
  end.

(** The states from [s] outwards, and the indices of the capture groups
    among them. *)
Fixpoint state_chain (s : RegExpParserState) : list RegExpParserState :=
  match s with
  | mkRegExpParserState previous _ _ _ =>
      s :: match previous with Some s' => state_chain s' | None => [] end
  end.

Definition enclosing_captures (s : RegExpParserState) : list Z :=
  capture_index <$> filter (fun s' => group_type s' = CAPTURE) (state_chain s).

(** *** Vocabulary for the scanner's properties *)

(** The scanner is settled on a character: either [current_] is the
    character found at position() and [next_pos_] is right behind it, or the
    input is used up. *)
Definition scanner_settled `{R : Declarations} (p : RegExpParser) : Prop :=
  (has_more_ p = true /\ 0 <= position p < in_length p /\
   fst (ReadNext true (set_scanner p (current_ p) (position p) true)) = current_ p /\
   next_pos_ (snd (ReadNext true (set_scanner p (current_ p) (position p) true)))
   = next_pos_ p) \/
  (has_more_ p = false /\ next_pos_ p = in_length p + 1 /\ current_ p = kEndMarker).

(** The number of code units from [next_pos_] to the end of the input. *)
Definition remaining_input (p : RegExpParser) : nat :=
  Z.to_nat (Z.of_nat (length (in_ p)) - next_pos_ p).

(** Neither of the two resource checks of Advance ever trips. *)
Definition no_resource_failure `{R : Declarations} : Prop :=
  forall p, HasOverflowed p = false /\ excess_allocation p = false.

End RegExp.

(** ** More of the small concrete heap, and a concrete scanner *)

Module SampleIC.

Import Sample.

(** The sample heap once more, with a richer [Code::Kind]. *)
Inductive ic_kind_t : Type :=
  | K_LOAD_IC | K_KEYED_LOAD_IC | K_CALL_IC | K_STORE_IC | K_KEYED_STORE_IC
  | K_BINARY_OP_IC.

#[global] Instance ic_kind_eq_dec : EqDecision ic_kind_t.
Proof. solve_decision. Defined.

Definition ic_kind_index (k : ic_kind_t) : N :=
  match k with
  | K_LOAD_IC => 0 | K_KEYED_LOAD_IC => 1 | K_STORE_IC => 2
  | K_KEYED_STORE_IC => 3 | K_CALL_IC => 4 | K_BINARY_OP_IC => 5
  end%N.

Definition enums : Enums := {|
  ElementsKind := kind;
  FAST_HOLEY_ELEMENTS := K_FAST_HOLEY;
  IsSloppyArgumentsElements := fun k =>
    match k with K_FAST_SLOPPY_ARGUMENTS => true | _ => false end;
  JS_ARRAY_TYPE := 190;
  FIRST_JS_RECEIVER_TYPE := 180;
  InlineCacheState := ic_state_t;
  UNINITIALIZED := S_UNINITIALIZED;
  PREMONOMORPHIC := S_PREMONOMORPHIC;
  MEGAMORPHIC := S_MEGAMORPHIC;
  RECOMPUTE_HANDLER := S_RECOMPUTE_HANDLER;
  KeyedAccessStoreMode := store_mode_t;
  STANDARD_STORE := M_STANDARD_STORE;
  STORE_AND_GROW_NO_TRANSITION := M_STORE_AND_GROW_NO_TRANSITION;
  STORE_NO_TRANSITION_IGNORE_OUT_OF_BOUNDS := M_STORE_NO_TRANSITION_IGNORE_OUT_OF_BOUNDS;
  STORE_NO_TRANSITION_HANDLE_COW := M_STORE_NO_TRANSITION_HANDLE_COW;
  LanguageMode := language_mode_t;
  IcCheckType := check_type_t;
  ELEMENT := T_ELEMENT;
  Kind := ic_kind_t;
  STORE_IC := K_STORE_IC;
  KEYED_STORE_IC := K_KEYED_STORE_IC;
|}.

#[local] Existing Instance enums | 0.

Definition declarations : @Declarations enums := {|
  Map := map_t;
  instance_type := map_instance_type;
  elements_kind := map_elements_kind;
  has_indexed_interceptor := fun m =>
    match m with interceptor_object_map => true | _ => false end;
  IsStringMap := fun m => match m with string_map => true | _ => false end;
  has_sloppy_arguments_elements := fun m =>
    match map_elements_kind m with K_FAST_SLOPPY_ARGUMENTS => true | _ => false end;
  has_fast_elements := fun m => kind_is_fast (map_elements_kind m);
  has_fixed_typed_array_elements := fun m =>
    match map_elements_kind m with K_UINT8 => true | _ => false end;
  has_dictionary_elements := fun m =>
    match map_elements_kind m with K_DICTIONARY => true | _ => false end;
  FindTransitionedMap := find_transitioned_map;
  HeapObject := heap_object_t;
  HeapObject_map := fun o =>
    match o with
    | a_heap_number => number_map
    | a_holey_array => initial_holey_array_map
    | a_plain_object => plain_object_map
    end;
  ComputeFlags := fun (k : @Kind enums) (s : @InlineCacheState enums) extra =>
    (ic_kind_index k + 8 * ic_state_index s + 64 * Z.to_N extra)%N;
  stub_flags := fun _ => 4%N;
  builtin_flags := fun _ => 5%N;
  ic_state := fun _ => S_MONOMORPHIC;
  FeedbackNexus := nexus_t;
  StateFromFeedback := fun n => match n with mk_nexus s => s end;
  StoreICState_GetExtraICState := fun (l : @LanguageMode enums) =>
    match l with L_SLOPPY => 0 | L_STRICT => 2 end;
  ExtraICStateKeyedAccessStoreMode_encode :=
    fun (m : @KeyedAccessStoreMode enums) => Z.shiftl (store_mode_index m) 3;
  IcCheckTypeField_encode := fun (t : @IcCheckType enums) =>
    match t with T_ELEMENT => 0 | T_PROPERTY => Z.shiftl 1 6 end;
  kNoExtraICState := 0;
  get_initial_js_array_map := fun (k : @ElementsKind enums) =>
    match k with
    | K_FAST_HOLEY => Some initial_holey_array_map
    | K_FAST_SMI => Some initial_packed_smi_array_map
    | K_FAST_HOLEY_SMI => Some initial_holey_smi_array_map
    | _ => None
    end;
  heap_number_map := number_map;
|}.

(** The maps recorded in a feedback slot. *)
Definition extract_maps (nexus : nexus_t) : list map_t :=
  match nexus with
  | mk_nexus S_POLYMORPHIC => [initial_packed_smi_array_map; initial_holey_array_map]
  | mk_nexus S_MONOMORPHIC => [plain_object_map]
  | mk_nexus _ => []
  end.

Definition an_ic_of_kind (k : ic_kind_t) (nexus : Handle nexus_t)
    : @IC enums declarations :=
  @mkIC enums declarations false S_UNINITIALIZED S_POLYMORPHIC k None None 0 []
    false nexus.

End SampleIC.

Module SampleRegExp.

Import RegExp.

Definition is_decimal_digit (c : Z) : bool :=
  bool_decide (48 <= c) && bool_decide (c <= 57).

Definition hex_value (c : Z) : Z :=
  if bool_decide (48 <= c <= 57) then c - 48
  else if bool_decide (97 <= c <= 102) then c - 87
  else if bool_decide (65 <= c <= 70) then c - 55
  else -1.

#[global] Instance declarations : RegExp.Declarations := {|
  kEndMarker := 2097152;
  kMaxCaptures := 65536;
  kInfinity := 2147483647;
  IsDecimalDigit := is_decimal_digit;
  HexValue := hex_value;
  IsLeadSurrogate := fun c => bool_decide (Z.land c 64512 = 55296);
  IsTrailSurrogate := fun c => bool_decide (Z.land c 64512 = 56320);
  CombineSurrogatePair := fun lead trail =>
    65536 + Z.shiftl (Z.land lead 1023) 10 + Z.land trail 1023;
  HasOverflowed := fun _ => false;
  excess_allocation := fun _ => false;
  kStackOverflowMessage := "Maximum call stack size exceeded";
|}.

(** A parser on a pattern given by its code units, no flags set. *)
Definition parser_on (pattern : list Z) : RegExpParser :=
  new_RegExpParser pattern None false false false.

(** [a{2,5}], [a{2], [\12(b)], [4a] and [(a)(?:b)[(]\(]. *)
Definition pattern_interval : list Z := [123; 50; 44; 53; 125].
Definition pattern_broken_interval : list Z := [123; 50].
Definition pattern_backreference : list Z := [92; 49; 50; 40; 98; 41].
Definition pattern_hex : list Z := [52; 97].
Definition pattern_groups : list Z :=
  [40; 97; 41; 40; 63; 58; 98; 41; 91; 40; 93; 92; 40].

(** [{41] under the unicode flag: an escape whose closing brace is
    missing. *)
Definition pattern_open_brace : list Z := [123; 52; 49].
Definition unicode_parser_on (pattern : list Z) : RegExpParser :=
  new_RegExpParser pattern None false false true.

(** The state inside the second capture group of [(a(?:b(c] . *)
Definition nested_states : RegExpParserState :=
  mkRegExpParserState
    (Some (mkRegExpParserState
             (Some (mkRegExpParserState
                      (Some (mkRegExpParserState None INITIAL LOOKAHEAD 0))
                      CAPTURE LOOKAHEAD 1))
             GROUPING LOOKAHEAD 1))
    CAPTURE LOOKAHEAD 2.

End SampleRegExp.

(** ** Properties *)

Section Properties.

Context `{D : Declarations}.

Lemma DCHECK_true build : DCHECK build true = Done tt.
Proof. by destruct build. Qed.

Lemma DCHECK_release cond : DCHECK ReleaseBuild cond = Done tt.
Proof. done. Qed.

Lemma DCHECK_debug_false : DCHECK DebugBuild false = Aborted.
Proof. done. Qed.

Lemma checked_bind_Done {A B : Type} (a : A) (f : A -> Checked B) :
  Done a ≫= f = f a.
Proof. done. Qed.

Lemma checked_bind_Aborted {A B : Type} (f : A -> Checked B) :
  Aborted ≫= f = Aborted.
Proof. done. Qed.

Lemma GetCode_inj (s1 s2 : CodeStub) : GetCode s1 = GetCode s2 -> s1 = s2.
Proof. unfold GetCode. congruence. Qed.

(** *** Keyed loads *)

(** The value the load compiler computes for [convert_hole_to_undefined]. *)
Lemma convert_hole_condition (m : Map) :
  bool_decide (instance_type m = JS_ARRAY_TYPE) &&
  bool_decide (elements_kind m = FAST_HOLEY_ELEMENTS) &&
  bool_decide (Some m = get_initial_js_array_map (elements_kind m)) = true
  <-> instance_type m = JS_ARRAY_TYPE /\
      elements_kind m = FAST_HOLEY_ELEMENTS /\
      get_initial_js_array_map (elements_kind m) = Some m.
Proof.
  rewrite !andb_true_iff, !bool_decide_eq_true. intuition congruence.
Qed.

(** C1.  A map with fast or fixed-typed-array elements that reaches the
    fourth rule gets the fast-element-load stub for its array-ness and
    elements kind, and the stub's convert-hole-to-undefined argument is true
    exactly when the map is a JS array map, its elements kind is
    FAST_HOLEY_ELEMENTS and the map is the isolate's initial JS array map for
    that kind; any other holey array map gets false.  Whatever the earlier
    rules decide, a fast-element-load stub that is returned with the argument
    true is returned for such a map only. *)
Theorem keyed_load_convert_hole_to_undefined
    (build : BuildMode) (m : Map) (extra : ExtraICState) :
  has_fast_elements m || has_fixed_typed_array_elements m = true ->
  (has_indexed_interceptor m = false -> IsStringMap m = false ->
   has_sloppy_arguments_elements m = false ->
   exists convert : bool,
     ComputeKeyedLoadMonomorphicHandler build m extra
       = Done (GetCode (LoadFastElementStub
                          (bool_decide (instance_type m = JS_ARRAY_TYPE))
                          (elements_kind m) convert)) /\
     (convert = true <->
        instance_type m = JS_ARRAY_TYPE /\
        elements_kind m = FAST_HOLEY_ELEMENTS /\
        get_initial_js_array_map (elements_kind m) = Some m) /\
     (instance_type m = JS_ARRAY_TYPE ->
      elements_kind m = FAST_HOLEY_ELEMENTS ->
      get_initial_js_array_map (elements_kind m) <> Some m ->
      convert = false)) /\
  (forall (is_js_array : bool) (kind : ElementsKind),
     ComputeKeyedLoadMonomorphicHandler build m extra
       = Done (GetCode (LoadFastElementStub is_js_array kind true)) ->
     instance_type m = JS_ARRAY_TYPE /\
     elements_kind m = FAST_HOLEY_ELEMENTS /\
     get_initial_js_array_map (elements_kind m) = Some m).
Proof.
  intros Hfast. unfold ComputeKeyedLoadMonomorphicHandler. split.
  - intros -> -> ->. rewrite Hfast. eexists. split; [reflexivity|].
    split; [apply convert_hole_condition|].
    intros Harr Hholey Hinit. apply not_true_is_false.
    rewrite convert_hole_condition. tauto.
  - intros j k.
    destruct (has_indexed_interceptor m); [intros [=]|].
    destruct (IsStringMap m); [intros [=]|].
    destruct (has_sloppy_arguments_elements m); [intros [=]|].
    rewrite Hfast. intros [= _ _ Hc]. by apply convert_hole_condition.
Qed.

(** C2.  The load rules are tried in order and the first that applies wins:
    indexed interceptor, string map, sloppy-arguments elements, fast or
    fixed-typed-array elements, and last the dictionary-element stub built
    from the extra IC state.  In a debug build the last rule asserts that the
    elements are dictionary elements. *)
Theorem keyed_load_rule_precedence
    (build : BuildMode) (m : Map) (extra : ExtraICState) :
  (has_indexed_interceptor m = true ->
   ComputeKeyedLoadMonomorphicHandler build m extra
     = Done (GetCode LoadIndexedInterceptorStub)) /\
  (has_indexed_interceptor m = false -> IsStringMap m = true ->
   ComputeKeyedLoadMonomorphicHandler build m extra
     = Done (GetCode LoadIndexedStringStub)) /\
  (has_indexed_interceptor m = false -> IsStringMap m = false ->
   has_sloppy_arguments_elements m = true ->
   ComputeKeyedLoadMonomorphicHandler build m extra
     = Done (GetCode KeyedLoadSloppyArgumentsStub)) /\
  (has_indexed_interceptor m = false -> IsStringMap m = false ->
   has_sloppy_arguments_elements m = false ->
   has_fast_elements m || has_fixed_typed_array_elements m = true ->
   exists convert : bool,
     ComputeKeyedLoadMonomorphicHandler build m extra
       = Done (GetCode (LoadFastElementStub
                          (bool_decide (instance_type m = JS_ARRAY_TYPE))
                          (elements_kind m) convert))) /\
  (has_indexed_interceptor m = false -> IsStringMap m = false ->
   has_sloppy_arguments_elements m = false ->
   has_fast_elements m || has_fixed_typed_array_elements m = false ->
   (has_dictionary_elements m = true \/ build = ReleaseBuild ->
    ComputeKeyedLoadMonomorphicHandler build m extra
      = Done (GetCode (LoadDictionaryElementStub (mkLoadICState extra)))) /\
   (has_dictionary_elements m = false ->
    ComputeKeyedLoadMonomorphicHandler DebugBuild m extra = Aborted)).
Proof.
  unfold ComputeKeyedLoadMonomorphicHandler.
  split; [by intros ->|].
  split; [by intros -> ->|].
  split; [by intros -> -> ->|].
  split; [intros -> -> -> ->; by eexists|].
  intros -> -> -> ->. split.
  - intros [-> | ->]; [by rewrite DCHECK_true | done].
  - by intros ->.
Qed.

(** *** Keyed stores *)

Lemma supported_store_mode_spec (store_mode : KeyedAccessStoreMode) :
  supported_store_mode store_mode = true <->
  store_mode = STANDARD_STORE \/
  store_mode = STORE_AND_GROW_NO_TRANSITION \/
  store_mode = STORE_NO_TRANSITION_IGNORE_OUT_OF_BOUNDS \/
  store_mode = STORE_NO_TRANSITION_HANDLE_COW.
Proof.
  unfold supported_store_mode.
  rewrite !orb_true_iff, !bool_decide_eq_true. tauto.
Qed.

Lemma unsupported_store_mode_spec (store_mode : KeyedAccessStoreMode) :
  ~ (store_mode = STANDARD_STORE \/
     store_mode = STORE_AND_GROW_NO_TRANSITION \/
     store_mode = STORE_NO_TRANSITION_IGNORE_OUT_OF_BOUNDS \/
     store_mode = STORE_NO_TRANSITION_HANDLE_COW) ->
  supported_store_mode store_mode = false.
Proof.
  intros Hno. apply not_true_is_false.
  by rewrite supported_store_mode_spec.
Qed.

Lemma CompileKeyedStoreMonomorphicHandler_mode compiler m store_mode :
  exists stub,
    CompileKeyedStoreMonomorphicHandler compiler m store_mode = GetCode stub /\
    stub_store_mode stub = Some store_mode.
Proof.
  unfold CompileKeyedStoreMonomorphicHandler.
  destruct (has_sloppy_arguments_elements m); [by eexists|].
  destruct (_ || _); by eexists.
Qed.

(** C6.  With a supported store mode, a map with fast elements (and no
    sloppy-arguments elements, which are tried first) gets the
    fast-element-store stub built with the requested store mode; and the
    stub of the returned handler always carries the requested mode, so no
    other mode, STANDARD_STORE included, is ever substituted. *)
Theorem keyed_store_monomorphic_exact_store_mode
    (build : BuildMode) (m : Map) (language_mode : LanguageMode)
    (store_mode : KeyedAccessStoreMode) :
  supported_store_mode store_mode = true ->
  (has_fast_elements m = true -> has_sloppy_arguments_elements m = false ->
   ComputeKeyedStoreMonomorphicHandler build m language_mode store_mode
     = Done (GetCode (StoreFastElementStub
                        (bool_decide (instance_type m = JS_ARRAY_TYPE))
                        (elements_kind m) store_mode))) /\
  (exists stub,
     ComputeKeyedStoreMonomorphicHandler build m language_mode store_mode
       = Done (GetCode stub) /\
     stub_store_mode stub = Some store_mode) /\
  (forall is_js_array kind other_mode,
     ComputeKeyedStoreMonomorphicHandler build m language_mode store_mode
       = Done (GetCode (StoreFastElementStub is_js_array kind other_mode)) ->
     other_mode = store_mode).
Proof.
  intros Hmode. unfold ComputeKeyedStoreMonomorphicHandler.
  rewrite Hmode, DCHECK_true. cbn.
  destruct (CompileKeyedStoreMonomorphicHandler_mode
              (mkPropertyICCompiler KEYED_STORE_IC
                 (KeyedStoreIC_ComputeExtraICState language_mode store_mode))
              m store_mode) as (stub & Hstub & Hsm).
  split; [|split].
  - intros Hfast Hsloppy. unfold CompileKeyedStoreMonomorphicHandler.
    by rewrite Hsloppy, Hfast.
  - exists stub. by rewrite Hstub.
  - intros j k other. rewrite Hstub. intros [= ->].
    cbn in Hsm. congruence.
Qed.

Lemma cached_stub_for_not_null maps store_mode m :
  is_null (cached_stub_for maps store_mode m) = false.
Proof.
  unfold cached_stub_for.
  destruct (FindTransitionedMap m maps); [done|].
  repeat (case_match; try done).
Qed.

Lemma at_lookup {A : Type} (l : list A) (i : nat) (x : A) :
  l !! i = Some x -> at_ l i = Done x.
Proof. unfold at_. by intros ->. Qed.

Lemma at_out_of_range {A : Type} (l : list A) (i : nat) :
  (length l <= i)%nat -> at_ l i = Aborted.
Proof. intros Hle. unfold at_. by rewrite lookup_ge_None_2. Qed.

(** The loop from index [i] on appends, for each remaining receiver map in
    order, its handler and its transitioned map. *)
Lemma CompileKeyedStorePolymorphicHandlers_loop_run build maps store_mode :
  forall remaining i out,
    (i + remaining = length maps)%nat ->
    CompileKeyedStorePolymorphicHandlers_loop build maps store_mode remaining i out
    = Done {| transitioned_maps :=
                transitioned_maps out ++
                ((fun m => FindTransitionedMap m maps) <$> drop i maps);
              handlers :=
                handlers out ++ (cached_stub_for maps store_mode <$> drop i maps) |}.
Proof.
  induction remaining as [|remaining IH]; intros i out Hlen; cbn.
  - rewrite drop_ge by lia. cbn. rewrite !app_nil_r. by destruct out.
  - destruct (lookup_lt_is_Some_2 maps i ltac:(lia)) as [m Hm].
    unfold CompileKeyedStorePolymorphicHandlers_step.
    rewrite (at_lookup _ _ _ Hm). cbn.
    rewrite cached_stub_for_not_null, DCHECK_true. cbn.
    rewrite IH by lia. cbn. unfold Add.
    rewrite (drop_S _ _ _ Hm). cbn.
    by rewrite <- !app_assoc.
Qed.

Lemma CompileKeyedStorePolymorphicHandlers_run build compiler maps out store_mode :
  CompileKeyedStorePolymorphicHandlers build compiler maps out store_mode
  = Done {| transitioned_maps :=
              transitioned_maps out ++ ((fun m => FindTransitionedMap m maps) <$> maps);
            handlers := handlers out ++ (cached_stub_for maps store_mode <$> maps) |}.
Proof.
  unfold CompileKeyedStorePolymorphicHandlers.
  by rewrite CompileKeyedStorePolymorphicHandlers_loop_run.
Qed.

Lemma ComputeKeyedStorePolymorphicHandlers_run build maps out store_mode language_mode :
  maps <> [] ->
  supported_store_mode store_mode = true \/ build = ReleaseBuild ->
  ComputeKeyedStorePolymorphicHandlers build maps out store_mode language_mode
  = Done {| transitioned_maps :=
              transitioned_maps out ++ ((fun m => FindTransitionedMap m maps) <$> maps);
            handlers := handlers out ++ (cached_stub_for maps store_mode <$> maps) |}.
Proof.
  intros Hne Hok. unfold ComputeKeyedStorePolymorphicHandlers.
  destruct maps as [|m0 maps']; [done|].
  rewrite (at_lookup (m0 :: maps') 0 m0 eq_refl), checked_bind_Done.
  assert (DCHECK build (supported_store_mode store_mode) = Done tt) as ->.
  { destruct Hok as [-> | ->]; [apply DCHECK_true | done]. }
  rewrite checked_bind_Done. apply CompileKeyedStorePolymorphicHandlers_run.
Qed.

(** C3.  For every receiver map of the input list, the handler added for
    it is: the elements-transition-and-store stub for (its elements kind, the
    transitioned map's elements kind, its array-ness, the store mode) when a
    transitioned map is found among the receiver maps; else the slow
    keyed-store builtin when its instance type is below
    FIRST_JS_RECEIVER_TYPE; else the sloppy-arguments, the fast-element or
    the generic element store stub, tried in that order.  The public entry
    point, called on at least one receiver map with a store mode that passes
    its assertion, gives the same lists. *)
Theorem keyed_store_polymorphic_handler_selection
    (build : BuildMode) (compiler : PropertyICCompiler) (maps : list Map)
    (out : StoreHandlerLists) (store_mode : KeyedAccessStoreMode)
    (language_mode : LanguageMode) :
  exists out',
    CompileKeyedStorePolymorphicHandlers build compiler maps out store_mode
      = Done out' /\
    (maps <> [] ->
     supported_store_mode store_mode = true \/ build = ReleaseBuild ->
     ComputeKeyedStorePolymorphicHandlers build maps out store_mode language_mode
       = Done out') /\
    forall (i : nat) (m : Map),
      maps !! i = Some m ->
      exists handler : Handle Code,
        handlers out' !! (length (handlers out) + i)%nat = Some handler /\
        let is_js_array := bool_decide (instance_type m = JS_ARRAY_TYPE) in
        (forall to_map,
           FindTransitionedMap m maps = Some to_map ->
           handler = GetCode (ElementsTransitionAndStoreStub (elements_kind m)
                                (elements_kind to_map) is_js_array store_mode)) /\
        (FindTransitionedMap m maps = None ->
         instance_type m < FIRST_JS_RECEIVER_TYPE ->
         handler = Some (BuiltinCode KeyedStoreIC_Slow)) /\
        (FindTransitionedMap m maps = None ->
         ~ instance_type m < FIRST_JS_RECEIVER_TYPE ->
         IsSloppyArgumentsElements (elements_kind m) = true ->
         handler = GetCode (KeyedStoreSloppyArgumentsStub store_mode)) /\
        (FindTransitionedMap m maps = None ->
         ~ instance_type m < FIRST_JS_RECEIVER_TYPE ->
         IsSloppyArgumentsElements (elements_kind m) = false ->
         has_fast_elements m || has_fixed_typed_array_elements m = true ->
         handler = GetCode (StoreFastElementStub is_js_array (elements_kind m)
                              store_mode)) /\
        (FindTransitionedMap m maps = None ->
         ~ instance_type m < FIRST_JS_RECEIVER_TYPE ->
         IsSloppyArgumentsElements (elements_kind m) = false ->
         has_fast_elements m || has_fixed_typed_array_elements m = false ->
         handler = GetCode (StoreElementStub (elements_kind m) store_mode)).
Proof.
  eexists. split; [apply CompileKeyedStorePolymorphicHandlers_run|].
  split; [apply ComputeKeyedStorePolymorphicHandlers_run|].
  intros i m Hm. exists (cached_stub_for maps store_mode m). cbn. split.
  { rewrite lookup_app_r by lia.
    replace (length (handlers out) + i - length (handlers out))%nat with i by lia.
    by rewrite list_lookup_fmap, Hm. }
  unfold cached_stub_for.
  split; [by intros to_map ->|].
  split; [intros -> Hlt; by rewrite bool_decide_eq_true_2|].
  split; [intros -> Hge ->; by rewrite bool_decide_eq_false_2|].
  split; intros -> Hge -> ->; by rewrite bool_decide_eq_false_2.
Qed.

(** C5.  The computation appends to both output lists one entry per
    receiver map, in order: position [i] of the appended handlers is the
    handler of receiver map [i] and position [i] of the appended
    transitioned maps is the transitioned map found for it, or null.  Same
    for the public entry point, called on at least one receiver map with a
    store mode that passes its assertion; starting from empty lists both
    results have the length of the input. *)
Theorem keyed_store_polymorphic_parallel_lists
    (build : BuildMode) (compiler : PropertyICCompiler) (maps : list Map)
    (out : StoreHandlerLists) (store_mode : KeyedAccessStoreMode)
    (language_mode : LanguageMode) :
  exists (new_handlers : list (Handle Code)) (new_maps : list (Handle Map)),
    let out' := {| transitioned_maps := transitioned_maps out ++ new_maps;
                   handlers := handlers out ++ new_handlers |} in
    CompileKeyedStorePolymorphicHandlers build compiler maps out store_mode
      = Done out' /\
    (maps <> [] ->
     supported_store_mode store_mode = true \/ build = ReleaseBuild ->
     ComputeKeyedStorePolymorphicHandlers build maps out store_mode language_mode
       = Done out') /\
    length new_handlers = length maps /\
    length new_maps = length maps /\
    (handlers out = [] -> transitioned_maps out = [] ->
     length (handlers out') = length maps /\
     length (transitioned_maps out') = length maps) /\
    (forall (i : nat) (m : Map),
       maps !! i = Some m ->
       new_handlers !! i = Some (cached_stub_for maps store_mode m) /\
       new_maps !! i = Some (FindTransitionedMap m maps)) /\
    (forall i : nat,
       (length maps <= i)%nat -> new_handlers !! i = None /\ new_maps !! i = None).
Proof.
  exists (cached_stub_for maps store_mode <$> maps),
         ((fun m => FindTransitionedMap m maps) <$> maps).
  cbn. split; [apply CompileKeyedStorePolymorphicHandlers_run|].
  split; [apply ComputeKeyedStorePolymorphicHandlers_run|].
  rewrite !length_fmap. split; [done|]. split; [done|].
  split. { intros -> ->. cbn. by rewrite !length_fmap. }
  split.
  - intros i m Hm. by rewrite !list_lookup_fmap, Hm.
  - intros i Hi. rewrite !list_lookup_fmap, lookup_ge_None_2; done.
Qed.

(** C8.  Both keyed-store entry points assert that the store mode is one of
    STANDARD_STORE, STORE_AND_GROW_NO_TRANSITION,
    STORE_NO_TRANSITION_IGNORE_OUT_OF_BOUNDS and
    STORE_NO_TRANSITION_HANDLE_COW.  With one of these four the assertion
    holds and both calls finish, in every build; with any other store mode
    the assertion fails and both calls abort in a debug build. *)
Theorem keyed_store_mode_assertion
    (m : Map) (maps : list Map) (out : StoreHandlerLists)
    (language_mode : LanguageMode) (store_mode : KeyedAccessStoreMode) :
  let supported :=
    store_mode = STANDARD_STORE \/
    store_mode = STORE_AND_GROW_NO_TRANSITION \/
    store_mode = STORE_NO_TRANSITION_IGNORE_OUT_OF_BOUNDS \/
    store_mode = STORE_NO_TRANSITION_HANDLE_COW in
  (supported ->
   forall build : BuildMode,
     DCHECK build (supported_store_mode store_mode) = Done tt /\
     (exists code,
        ComputeKeyedStoreMonomorphicHandler build m language_mode store_mode
          = Done code) /\
     (maps <> [] ->
      exists out',
        ComputeKeyedStorePolymorphicHandlers build maps out store_mode
          language_mode = Done out')) /\
  (~ supported ->
   DCHECK DebugBuild (supported_store_mode store_mode) = Aborted /\
   ComputeKeyedStoreMonomorphicHandler DebugBuild m language_mode store_mode
     = Aborted /\
   ComputeKeyedStorePolymorphicHandlers DebugBuild maps out store_mode
     language_mode = Aborted).
Proof.
  cbn. split.
  - intros Hs%supported_store_mode_spec build.
    split; [by rewrite Hs, DCHECK_true|].
    split.
    + unfold ComputeKeyedStoreMonomorphicHandler.
      rewrite Hs, DCHECK_true. by eexists.
    + intros Hne. eexists.
      apply ComputeKeyedStorePolymorphicHandlers_run; auto.
  - intros Hs%unsupported_store_mode_spec.
    unfold ComputeKeyedStoreMonomorphicHandler,
      ComputeKeyedStorePolymorphicHandlers.
    rewrite Hs. split; [done|]. split; [done|].
    by destruct (at_ maps 0).
Qed.

(** *** The megamorphic store handler *)

Lemma ComputeStore_hit build extra isolate code :
  non_monomorphic_cache isolate !! ComputeFlags STORE_IC MEGAMORPHIC extra
    = Some code ->
  ComputeStore build MEGAMORPHIC extra isolate = Done (Some code, isolate).
Proof.
  intros Hhit. unfold ComputeStore, heap_bind, heap_check.
  rewrite bool_decide_eq_true_2, DCHECK_true by done.
  by rewrite Hhit.
Qed.

Lemma ComputeStore_miss build extra isolate :
  non_monomorphic_cache isolate !! ComputeFlags STORE_IC MEGAMORPHIC extra
    = None ->
  let code_flags := ComputeFlags STORE_IC MEGAMORPHIC extra in
  let code := CompiledCode (code_space_top isolate) code_flags in
  ComputeStore build MEGAMORPHIC extra isolate
  = Done (Some code,
          {| non_monomorphic_cache :=
               <[code_flags := code]> (non_monomorphic_cache isolate);
             code_space_top := S (code_space_top isolate);
             code_events := code_events isolate ++ [(STORE_MEGAMORPHIC_TAG, code)] |}).
Proof.
  intros Hmiss. cbn. unfold ComputeStore, heap_bind, heap_check.
  rewrite bool_decide_eq_true_2, DCHECK_true by done.
  by rewrite Hmiss.
Qed.

(** C4.  Two calls of ComputeStore in state MEGAMORPHIC whose extra states
    give equal flags return the same handler, and the second call changes
    nothing: it returns the entry of the non-monomorphic cache.  A call that
    finds an entry for the flags returns it and leaves the isolate as it was;
    only a call that finds none compiles a new code object and inserts it
    under the flags. *)
Theorem ComputeStore_megamorphic_idempotent
    (build : BuildMode) (extra extra' : ExtraICState) (isolate : Isolate) :
  ComputeFlags STORE_IC MEGAMORPHIC extra
    = ComputeFlags STORE_IC MEGAMORPHIC extra' ->
  let code_flags := ComputeFlags STORE_IC MEGAMORPHIC extra in
  exists (code : Code) (isolate1 : Isolate),
    ComputeStore build MEGAMORPHIC extra isolate = Done (Some code, isolate1) /\
    ComputeStore build MEGAMORPHIC extra' isolate1 = Done (Some code, isolate1) /\
    non_monomorphic_cache isolate1 !! code_flags = Some code /\
    (forall cached,
       non_monomorphic_cache isolate !! code_flags = Some cached ->
       code = cached /\ isolate1 = isolate) /\
    (non_monomorphic_cache isolate !! code_flags = None ->
     code = CompiledCode (code_space_top isolate) code_flags /\
     non_monomorphic_cache isolate1
       = <[code_flags := code]> (non_monomorphic_cache isolate) /\
     code_space_top isolate1 = S (code_space_top isolate) /\
     code_events isolate1
       = code_events isolate ++ [(STORE_MEGAMORPHIC_TAG, code)]).
Proof.
  intros Heq. cbn.
  destruct (non_monomorphic_cache isolate !! ComputeFlags STORE_IC MEGAMORPHIC extra)
    as [cached|] eqn:Hlook.
  - exists cached, isolate.
    split; [by apply ComputeStore_hit|].
    split; [apply ComputeStore_hit; by rewrite <- Heq|].
    split; [done|]. split; [by intros ? [= <-]|done].
  - eexists _, _.
    split; [by apply ComputeStore_miss|].
    split; [apply ComputeStore_hit; cbn; rewrite <- Heq; apply lookup_insert_eq|].
    split; [cbn; apply lookup_insert_eq|].
    split; [done|]. by intros _.
Qed.

(** *** The IC base class *)

Variable RecomputeHandlerForName : IC -> Object -> bool.

(** C7.  MarkRecomputeHandler, when its assertion on the name holds (always,
    in a release build), leaves the IC in state RECOMPUTE_HANDLER with
    saved_state() equal to the state it had before; for an IC whose state is
    not RECOMPUTE_HANDLER, saved_state() is its state. *)
Theorem MarkRecomputeHandler_saves_state
    (build : BuildMode) (ic : IC) (name : Object) :
  (build = ReleaseBuild \/ RecomputeHandlerForName ic name = true ->
   exists ic',
     MarkRecomputeHandler RecomputeHandlerForName build ic name = Done ic' /\
     state ic' = RECOMPUTE_HANDLER /\
     saved_state ic' = state ic) /\
  (state ic <> RECOMPUTE_HANDLER -> saved_state ic = state ic).
Proof.
  split.
  - intros Hok. unfold MarkRecomputeHandler.
    assert (DCHECK build (RecomputeHandlerForName ic name) = Done tt) as ->.
    { destruct Hok as [-> | ->]; [done | apply DCHECK_true]. }
    eexists. split; [reflexivity|]. split; [done|].
    unfold saved_state, state. cbn. by rewrite bool_decide_eq_true_2.
  - intros Hne. unfold saved_state. by rewrite bool_decide_eq_false_2.
Qed.

(** C9.  IsCleared, on a feedback nexus and on a code object alike, answers
    true exactly when IC use is switched off or the state is UNINITIALIZED
    or PREMONOMORPHIC; a PREMONOMORPHIC record is cleared just as an
    UNINITIALIZED one is. *)
Theorem IsCleared_spec (FLAG_use_ic : bool) (nexus : FeedbackNexus) (code : Code) :
  (IsCleared FLAG_use_ic nexus = true <->
     FLAG_use_ic = false \/
     StateFromFeedback nexus = UNINITIALIZED \/
     StateFromFeedback nexus = PREMONOMORPHIC) /\
  (IsCleared_code FLAG_use_ic code = true <->
     FLAG_use_ic = false \/
     ic_state code = UNINITIALIZED \/
     ic_state code = PREMONOMORPHIC) /\
  (forall premonomorphic uninitialized : FeedbackNexus,
     StateFromFeedback premonomorphic = PREMONOMORPHIC ->
     StateFromFeedback uninitialized = UNINITIALIZED ->
     IsCleared FLAG_use_ic premonomorphic = true /\
     IsCleared FLAG_use_ic premonomorphic = IsCleared FLAG_use_ic uninitialized).
Proof.
  unfold IsCleared, IsCleared_code.
  split; [|split].
  - rewrite !orb_true_iff, negb_true_iff, !bool_decide_eq_true. tauto.
  - rewrite !orb_true_iff, negb_true_iff, !bool_decide_eq_true. tauto.
  - intros n1 n2 -> ->.
    rewrite (bool_decide_eq_true_2 (PREMONOMORPHIC = PREMONOMORPHIC)) by done.
    rewrite (bool_decide_eq_true_2 (UNINITIALIZED = UNINITIALIZED)) by done.
    by rewrite !orb_true_r.
Qed.

(** C10.  update_receiver_map records heap_number_map for a small integer
    and the receiver's own map for a heap object, and changes nothing else;
    so a small integer and a heap number, whose map is heap_number_map,
    leave the IC in the same state. *)
Theorem update_receiver_map_smi_as_heap_number (ic : IC) :
  (forall value : Z,
     update_receiver_map ic (Smi value) = set_receiver_map ic (Some heap_number_map) /\
     receiver_map (update_receiver_map ic (Smi value)) = Some heap_number_map) /\
  (forall o : HeapObject,
     update_receiver_map ic (HeapObjectRef o)
       = set_receiver_map ic (Some (HeapObject_map o)) /\
     receiver_map (update_receiver_map ic (HeapObjectRef o))
       = Some (HeapObject_map o)) /\
  (forall (value : Z) (number : HeapObject),
     HeapObject_map number = heap_number_map ->
     update_receiver_map ic (Smi value)
       = update_receiver_map ic (HeapObjectRef number)).
Proof.
  split; [done|]. split; [done|].
  intros value number Hmap. cbn. by rewrite Hmap.
Qed.

End Properties.

(** ** The theorems at work on the sample heap *)

Section OnTheSampleHeap.

Import Sample.

Example load_initial_holey_array :
  ComputeKeyedLoadMonomorphicHandler DebugBuild initial_holey_array_map 0
  = Done (GetCode (LoadFastElementStub true K_FAST_HOLEY true)).
Proof. reflexivity. Qed.

Example load_subclass_holey_array :
  ComputeKeyedLoadMonomorphicHandler DebugBuild subclass_holey_array_map 0
  = Done (GetCode (LoadFastElementStub true K_FAST_HOLEY false)).
Proof. reflexivity. Qed.

Example load_interceptor_object :
  ComputeKeyedLoadMonomorphicHandler DebugBuild interceptor_object_map 0
  = Done (GetCode LoadIndexedInterceptorStub).
Proof. reflexivity. Qed.

Example load_plain_object_is_not_array :
  ComputeKeyedLoadMonomorphicHandler DebugBuild plain_object_map 0
  = Done (GetCode (LoadFastElementStub false K_FAST_HOLEY false)).
Proof. reflexivity. Qed.

Example store_grow_on_packed_array :
  ComputeKeyedStoreMonomorphicHandler DebugBuild initial_packed_smi_array_map
    L_SLOPPY M_STORE_AND_GROW_NO_TRANSITION
  = Done (GetCode (StoreFastElementStub true K_FAST_SMI
                     M_STORE_AND_GROW_NO_TRANSITION)).
Proof. reflexivity. Qed.

Example store_unsupported_mode_debug :
  ComputeKeyedStoreMonomorphicHandler DebugBuild initial_packed_smi_array_map
    L_SLOPPY M_STORE_TRANSITION_TO_OBJECT
  = Aborted.
Proof. reflexivity. Qed.

Example store_polymorphic_three_maps :
  ComputeKeyedStorePolymorphicHandlers DebugBuild
    [initial_packed_smi_array_map; initial_holey_array_map; number_map]
    {| transitioned_maps := []; handlers := [] |}
    M_STANDARD_STORE L_STRICT
  = Done {| transitioned_maps := [Some initial_holey_array_map; None; None];
            handlers :=
              [GetCode (ElementsTransitionAndStoreStub K_FAST_SMI K_FAST_HOLEY
                          true M_STANDARD_STORE);
               GetCode (StoreFastElementStub true K_FAST_HOLEY M_STANDARD_STORE);
               Some (BuiltinCode KeyedStoreIC_Slow)] |}.
Proof. reflexivity. Qed.

Example store_polymorphic_no_maps :
  ComputeKeyedStorePolymorphicHandlers ReleaseBuild []
    {| transitioned_maps := []; handlers := [] |} M_STANDARD_STORE L_STRICT
  = Aborted.
Proof. reflexivity. Qed.

Lemma keyed_load_convert_hole_to_undefined_witness :
  @has_fast_elements enums declarations initial_holey_array_map
    || @has_fixed_typed_array_elements enums declarations initial_holey_array_map
    = true /\
  exists convert : bool,
    ComputeKeyedLoadMonomorphicHandler DebugBuild initial_holey_array_map 0
      = Done (GetCode (LoadFastElementStub true K_FAST_HOLEY convert)) /\
    convert = true.
Proof.
  split; [reflexivity|].
  destruct (keyed_load_convert_hole_to_undefined (D:=declarations) DebugBuild
              initial_holey_array_map 0 eq_refl) as [Hrule _].
  destruct (Hrule eq_refl eq_refl eq_refl) as (convert & Hrun & Hiff & _).
  exists convert. split; [exact Hrun|].
  apply Hiff. repeat split; reflexivity.
Defined.

Lemma keyed_load_rule_precedence_witness :
  ComputeKeyedLoadMonomorphicHandler DebugBuild interceptor_object_map 7
    = Done (GetCode LoadIndexedInterceptorStub) /\
  ComputeKeyedLoadMonomorphicHandler DebugBuild string_map 7
    = Done (GetCode LoadIndexedStringStub) /\
  ComputeKeyedLoadMonomorphicHandler DebugBuild sloppy_arguments_map 7
    = Done (GetCode KeyedLoadSloppyArgumentsStub) /\
  ComputeKeyedLoadMonomorphicHandler DebugBuild dictionary_object_map 7
    = Done (GetCode (LoadDictionaryElementStub (mkLoadICState 7))).
Proof.
  split; [|split; [|split]].
  - apply (keyed_load_rule_precedence (D:=declarations) DebugBuild interceptor_object_map 7).
    reflexivity.
  - apply (keyed_load_rule_precedence (D:=declarations) DebugBuild string_map 7); reflexivity.
  - apply (keyed_load_rule_precedence (D:=declarations) DebugBuild sloppy_arguments_map 7);
      reflexivity.
  - apply (keyed_load_rule_precedence (D:=declarations) DebugBuild dictionary_object_map 7);
      try reflexivity.
    left. reflexivity.
Defined.

Lemma keyed_store_polymorphic_handler_selection_witness :
  exists out',
    CompileKeyedStorePolymorphicHandlers DebugBuild
      (mkPropertyICCompiler KEYED_STORE_IC 0)
      [initial_packed_smi_array_map; initial_holey_array_map; number_map]
      {| transitioned_maps := []; handlers := [] |} M_STANDARD_STORE
    = Done out' /\
    handlers out' !! 0%nat
      = Some (GetCode (ElementsTransitionAndStoreStub K_FAST_SMI K_FAST_HOLEY
                         true M_STANDARD_STORE)) /\
    handlers out' !! 2%nat = Some (Some (BuiltinCode KeyedStoreIC_Slow)).
Proof.
  destruct (keyed_store_polymorphic_handler_selection (D:=declarations) DebugBuild
              (mkPropertyICCompiler KEYED_STORE_IC 0)
              [initial_packed_smi_array_map; initial_holey_array_map; number_map]
              {| transitioned_maps := []; handlers := [] |} M_STANDARD_STORE
              L_SLOPPY)
    as (out' & Hrun & _ & Hsel).
  exists out'. split; [exact Hrun|]. split.
  - destruct (Hsel 0%nat initial_packed_smi_array_map eq_refl)
      as (h & Hh & Htrans & _).
    rewrite (Htrans initial_holey_array_map eq_refl) in Hh. exact Hh.
  - destruct (Hsel 2%nat number_map eq_refl) as (h & Hh & _ & Hslow & _).
    rewrite (Hslow eq_refl eq_refl) in Hh. exact Hh.
Defined.

Lemma ComputeStore_megamorphic_idempotent_witness :
  ComputeFlags STORE_IC MEGAMORPHIC 2 = ComputeFlags STORE_IC MEGAMORPHIC 2 /\
  exists (code : Code) (isolate1 : Isolate),
    ComputeStore DebugBuild MEGAMORPHIC 2 empty_isolate
      = Done (Some code, isolate1) /\
    ComputeStore DebugBuild MEGAMORPHIC 2 isolate1
      = Done (Some code, isolate1) /\
    code = CompiledCode 0 162%N.
Proof.
  split; [reflexivity|].
  destruct (ComputeStore_megamorphic_idempotent (D:=declarations) DebugBuild 2 2 empty_isolate
              eq_refl) as (code & isolate1 & Hfirst & Hsecond & _ & _ & Hmiss).
  exists code, isolate1. split; [exact Hfirst|]. split; [exact Hsecond|].
  apply Hmiss. reflexivity.
Defined.

Lemma keyed_store_polymorphic_parallel_lists_witness :
  exists new_handlers new_maps,
    ComputeKeyedStorePolymorphicHandlers DebugBuild
      [initial_packed_smi_array_map; initial_holey_array_map]
      {| transitioned_maps := []; handlers := [] |}
      M_STANDARD_STORE L_SLOPPY
    = Done {| transitioned_maps := new_maps; handlers := new_handlers |} /\
    length new_handlers = 2%nat /\ length new_maps = 2%nat /\
    new_maps !! 0%nat = Some (Some initial_holey_array_map) /\
    new_maps !! 1%nat = Some None.
Proof.
  destruct (keyed_store_polymorphic_parallel_lists (D:=declarations) DebugBuild
              (mkPropertyICCompiler KEYED_STORE_IC 0)
              [initial_packed_smi_array_map; initial_holey_array_map]
              {| transitioned_maps := []; handlers := [] |}
              M_STANDARD_STORE L_SLOPPY)
    as (hs & ts & _ & Hrun & Hlh & Hlt & _ & Hat & _).
  exists hs, ts. split.
  - apply Hrun; [discriminate | left; reflexivity].
  - split; [exact Hlh|]. split; [exact Hlt|]. split.
    + apply (Hat 0%nat initial_packed_smi_array_map eq_refl).
    + apply (Hat 1%nat initial_holey_array_map eq_refl).
Defined.

Lemma keyed_store_monomorphic_exact_store_mode_witness :
  supported_store_mode M_STORE_AND_GROW_NO_TRANSITION = true /\
  ComputeKeyedStoreMonomorphicHandler DebugBuild initial_packed_smi_array_map
    L_STRICT M_STORE_AND_GROW_NO_TRANSITION
  = Done (GetCode (StoreFastElementStub true K_FAST_SMI
                     M_STORE_AND_GROW_NO_TRANSITION)).
Proof.
  split; [reflexivity|].
  apply (keyed_store_monomorphic_exact_store_mode (D:=declarations) DebugBuild
           initial_packed_smi_array_map L_STRICT M_STORE_AND_GROW_NO_TRANSITION);
    reflexivity.
Defined.

Lemma MarkRecomputeHandler_saves_state_witness :
  exists ic',
    MarkRecomputeHandler (fun _ _ => true) DebugBuild (an_ic S_POLYMORPHIC) (Smi 0)
      = Done ic' /\
    state ic' = S_RECOMPUTE_HANDLER /\
    saved_state ic' = S_POLYMORPHIC.
Proof.
  apply (MarkRecomputeHandler_saves_state (D:=declarations) (fun _ _ => true) DebugBuild
           (an_ic S_POLYMORPHIC) (Smi 0)).
  right. reflexivity.
Defined.

Lemma keyed_store_mode_assertion_witness :
  (forall build : BuildMode,
     exists code,
       ComputeKeyedStoreMonomorphicHandler build plain_object_map L_SLOPPY
         M_STORE_NO_TRANSITION_HANDLE_COW = Done code) /\
  ComputeKeyedStoreMonomorphicHandler DebugBuild plain_object_map L_SLOPPY
    M_STORE_AND_GROW_TRANSITION_TO_DOUBLE = Aborted /\
  ComputeKeyedStorePolymorphicHandlers DebugBuild
    [plain_object_map; dictionary_object_map]
    {| transitioned_maps := []; handlers := [] |}
    M_STORE_AND_GROW_TRANSITION_TO_DOUBLE L_SLOPPY = Aborted.
Proof.
  split.
  - intros build.
    apply (keyed_store_mode_assertion (D:=declarations) plain_object_map [] 
             {| transitioned_maps := []; handlers := [] |} L_SLOPPY
             M_STORE_NO_TRANSITION_HANDLE_COW).
    right. right. right. reflexivity.
  - apply (keyed_store_mode_assertion (D:=declarations) plain_object_map
             [plain_object_map; dictionary_object_map]
             {| transitioned_maps := []; handlers := [] |} L_SLOPPY
             M_STORE_AND_GROW_TRANSITION_TO_DOUBLE).
    intros [H | [H | [H | H]]]; discriminate H.
Defined.

Lemma IsCleared_spec_witness :
  IsCleared true (mk_nexus S_PREMONOMORPHIC) = true /\
  IsCleared true (mk_nexus S_PREMONOMORPHIC)
    = IsCleared true (mk_nexus S_UNINITIALIZED).
Proof.
  apply (IsCleared_spec (D:=declarations) true (mk_nexus S_MONOMORPHIC) (BuiltinCode KeyedStoreIC_Slow)
           ); reflexivity.
Defined.

Lemma update_receiver_map_smi_as_heap_number_witness :
  @HeapObject_map enums declarations a_heap_number = heap_number_map /\
  update_receiver_map (an_ic S_MONOMORPHIC) (Smi 42)
    = update_receiver_map (an_ic S_MONOMORPHIC) (HeapObjectRef a_heap_number).
Proof.
  split; [reflexivity|].
  apply (update_receiver_map_smi_as_heap_number (D:=declarations) (an_ic S_MONOMORPHIC)).
  reflexivity.
Defined.

End OnTheSampleHeap.

(** ** Further properties of the handler compiler *)

Section CompilerProperties.

Context `{D : Declarations}.

Lemma DCHECK_debug_Done (cond : bool) :
  DCHECK DebugBuild cond = Done tt -> cond = true.
Proof. by destruct cond. Qed.

Lemma DCHECK_Done_release (build : BuildMode) (cond : bool) :
  DCHECK build cond = Done tt -> DCHECK ReleaseBuild cond = Done tt.
Proof. done. Qed.

(** What a call of ComputeStore does, for any IC state: it aborts on the
    state assertion, or returns the cached entry, or compiles and inserts. *)
Lemma ComputeStore_cases build st extra isolate :
  let code_flags := ComputeFlags STORE_IC st extra in
  let fresh := CompiledCode (code_space_top isolate) code_flags in
  (build = DebugBuild /\ st <> MEGAMORPHIC /\
   ComputeStore build st extra isolate = Aborted) \/
  ((build = ReleaseBuild \/ st = MEGAMORPHIC) /\
   ((exists cached,
       non_monomorphic_cache isolate !! code_flags = Some cached /\
       ComputeStore build st extra isolate = Done (Some cached, isolate)) \/
    (non_monomorphic_cache isolate !! code_flags = None /\
     ComputeStore build st extra isolate
     = Done (Some fresh,
             {| non_monomorphic_cache :=
                  <[code_flags := fresh]> (non_monomorphic_cache isolate);
                code_space_top := S (code_space_top isolate);
                code_events :=
                  code_events isolate ++ [(STORE_MEGAMORPHIC_TAG, fresh)] |})))).
Proof.
  cbn. unfold ComputeStore, heap_bind, heap_check.
  destruct (decide (MEGAMORPHIC = st)) as [<-|Hne].
  - right. split; [by right|].
    rewrite bool_decide_eq_true_2, DCHECK_true by done.
    destruct (non_monomorphic_cache isolate !! _) as [cached|] eqn:Hl.
    + left. by exists cached.
    + right. done.
  - rewrite bool_decide_eq_false_2 by done. destruct build.
    + right. split; [by left|]. cbn.
      destruct (non_monomorphic_cache isolate !! _) as [cached|] eqn:Hl.
      * left. by exists cached.
      * right. done.
    + left. split; [done|]. split; [congruence | done].
Qed.

(** X1.  The non-monomorphic cache stays consistent: if every entry sits
    under its own flags before a call of ComputeStore, the same holds
    afterwards, and the handler returned carries the flags computed from the
    kind STORE_IC, the IC state and the extra state. *)
Theorem ComputeStore_keeps_cache_consistent
    (build : BuildMode) (st : InlineCacheState) (extra : ExtraICState)
    (isolate isolate' : Isolate) (handler : Handle Code) :
  cache_consistent (non_monomorphic_cache isolate) ->
  ComputeStore build st extra isolate = Done (handler, isolate') ->
  cache_consistent (non_monomorphic_cache isolate') /\
  exists code,
    handler = Some code /\
    flags code = ComputeFlags STORE_IC st extra /\
    non_monomorphic_cache isolate' !! ComputeFlags STORE_IC st extra = Some code.
Proof.
  intros Hcons Hrun.
  destruct (ComputeStore_cases build st extra isolate)
    as [(_ & _ & Habort) | (_ & [(cached & Hl & Hhit) | (Hl & Hmiss)])];
    cbn in *.
  - congruence.
  - rewrite Hhit in Hrun. injection Hrun as <- <-.
    split; [done|]. exists cached. split; [done|]. split; [by apply Hcons|done].
  - rewrite Hmiss in Hrun. injection Hrun as <- <-. cbn. split.
    + intros key code.
      destruct (decide (ComputeFlags STORE_IC st extra = key)) as [<-|Hne].
      * rewrite lookup_insert_eq. by intros [= <-].
      * rewrite lookup_insert_ne by done. apply Hcons.
    + eexists. split; [done|]. split; [done|]. apply lookup_insert_eq.
Qed.

Lemma ComputeStore_grows
    (build : BuildMode) (st : InlineCacheState) (extra : ExtraICState)
    (isolate isolate' : Isolate) (handler : Handle Code) :
  ComputeStore build st extra isolate = Done (handler, isolate') ->
  (forall key code,
     non_monomorphic_cache isolate !! key = Some code ->
     non_monomorphic_cache isolate' !! key = Some code) /\
  (forall key,
     key <> ComputeFlags STORE_IC st extra ->
     non_monomorphic_cache isolate' !! key = non_monomorphic_cache isolate !! key) /\
  (code_space_top isolate' + size (non_monomorphic_cache isolate)
   = code_space_top isolate + size (non_monomorphic_cache isolate'))%nat /\
  (code_space_top isolate <= code_space_top isolate' <= S (code_space_top isolate))%nat.
Proof.
  intros Hrun.
  destruct (ComputeStore_cases build st extra isolate)
    as [(_ & _ & Habort) | (_ & [(cached & Hl & Hhit) | (Hl & Hmiss)])];
    cbn in *.
  - congruence.
  - rewrite Hhit in Hrun. injection Hrun as <- <-.
    repeat split; (done || lia).
  - rewrite Hmiss in Hrun. injection Hrun as <- <-. cbn.
    split; [|split; [|split]].
    + intros key code Hk.
      destruct (decide (ComputeFlags STORE_IC st extra = key)) as [<-|Hne];
        [discriminate (eq_trans (eq_sym Hk) Hl) | by rewrite lookup_insert_ne].
    + intros key Hne. by rewrite lookup_insert_ne.
    + rewrite map_size_insert_None by done. lia.
    + lia.
Qed.

(** X2.  ComputeStore never evicts or overwrites: every entry of the cache
    is still there after the call, entries under other flags are unchanged,
    and the number of code objects compiled equals the number of entries
    added (none on a hit, one on a miss). *)
Theorem ComputeStore_only_grows_the_cache
    (build : BuildMode) (st : InlineCacheState) (extra : ExtraICState)
    (isolate isolate' : Isolate) (handler : Handle Code) :
  ComputeStore build st extra isolate = Done (handler, isolate') ->
  (forall key code,
     non_monomorphic_cache isolate !! key = Some code ->
     non_monomorphic_cache isolate' !! key = Some code) /\
  (forall key,
     key <> ComputeFlags STORE_IC st extra ->
     non_monomorphic_cache isolate' !! key = non_monomorphic_cache isolate !! key) /\
  (code_space_top isolate' + size (non_monomorphic_cache isolate)
   = code_space_top isolate + size (non_monomorphic_cache isolate'))%nat /\
  (code_space_top isolate <= code_space_top isolate' <= S (code_space_top isolate))%nat.
Proof. apply ComputeStore_grows. Qed.

(** X3.  Handlers for different flags live side by side: after computing
    the handler for one extra state and then the handler for an extra state
    with different flags, asking again for the first returns the very same
    code object and changes nothing. *)
Theorem ComputeStore_other_flags_do_not_evict
    (build : BuildMode) (extra1 extra2 : ExtraICState)
    (isolate isolate1 isolate2 : Isolate) (handler1 handler2 : Handle Code) :
  ComputeFlags STORE_IC MEGAMORPHIC extra1 <> ComputeFlags STORE_IC MEGAMORPHIC extra2 ->
  ComputeStore build MEGAMORPHIC extra1 isolate = Done (handler1, isolate1) ->
  ComputeStore build MEGAMORPHIC extra2 isolate1 = Done (handler2, isolate2) ->
  ComputeStore build MEGAMORPHIC extra1 isolate2 = Done (handler1, isolate2) /\
  ComputeStore build MEGAMORPHIC extra2 isolate2 = Done (handler2, isolate2).
Proof.
  intros Hne Hrun1 Hrun2.
  assert (forall extra i i' h,
            ComputeStore build MEGAMORPHIC extra i = Done (h, i') ->
            exists code, h = Some code /\
              non_monomorphic_cache i' !! ComputeFlags STORE_IC MEGAMORPHIC extra
                = Some code) as Hcached.
  { intros extra i i' h Hrun.
    destruct (ComputeStore_cases build MEGAMORPHIC extra i)
      as [(_ & _ & Habort) | (_ & [(cached & Hl & Hhit) | (Hl & Hmiss)])];
      cbn in *.
    - congruence.
    - rewrite Hhit in Hrun. injection Hrun as <- <-. by exists cached.
    - rewrite Hmiss in Hrun. injection Hrun as <- <-. eexists.
      split; [done|]. apply lookup_insert_eq. }
  destruct (Hcached _ _ _ _ Hrun1) as (code1 & -> & Hc1).
  destruct (Hcached _ _ _ _ Hrun2) as (code2 & -> & Hc2).
  destruct (ComputeStore_grows _ _ _ _ _ _ Hrun2) as (Hkeep & _).
  split; apply ComputeStore_hit; [by apply Hkeep | done].
Qed.

(** X4.  ComputeStore is meant for MEGAMORPHIC only: with any other IC state
    a debug build aborts on the assertion, while a release build goes on and
    caches a handler under the flags of that state. *)
Theorem ComputeStore_other_state
    (st : InlineCacheState) (extra : ExtraICState) (isolate : Isolate) :
  st <> MEGAMORPHIC ->
  ComputeStore DebugBuild st extra isolate = Aborted /\
  exists code isolate',
    ComputeStore ReleaseBuild st extra isolate = Done (Some code, isolate') /\
    non_monomorphic_cache isolate' !! ComputeFlags STORE_IC st extra = Some code.
Proof.
  intros Hne. split.
  - destruct (ComputeStore_cases DebugBuild st extra isolate)
      as [(_ & _ & Habort) | ([[=] | ->] & _)]; done.
  - destruct (ComputeStore_cases ReleaseBuild st extra isolate)
      as [([=] & _) | (_ & [(cached & Hl & Hhit) | (Hl & Hmiss)])]; cbn in *.
    + by exists cached, isolate.
    + eexists _, _. split; [exact Hmiss|]. cbn. apply lookup_insert_eq.
Qed.

(** *** Keyed loads *)

(** X5.  A keyed-load handler computation fails in one situation only: a
    debug build meets a map that has no indexed interceptor, is no string
    map and has neither sloppy-arguments, fast, fixed-typed-array nor
    dictionary elements.  In every other case it returns the code of a stub,
    never a null handle. *)
Theorem keyed_load_aborts_only_on_unknown_elements
    (build : BuildMode) (m : Map) (extra : ExtraICState) :
  (ComputeKeyedLoadMonomorphicHandler build m extra = Aborted <->
   build = DebugBuild /\
   has_indexed_interceptor m = false /\ IsStringMap m = false /\
   has_sloppy_arguments_elements m = false /\
   has_fast_elements m = false /\ has_fixed_typed_array_elements m = false /\
   has_dictionary_elements m = false) /\
  (ComputeKeyedLoadMonomorphicHandler build m extra <> Aborted ->
   exists stub,
     ComputeKeyedLoadMonomorphicHandler build m extra = Done (GetCode stub)).
Proof.
  unfold ComputeKeyedLoadMonomorphicHandler.
  destruct (has_indexed_interceptor m);
    [split; [split; [done | intuition discriminate] | by eexists]|].
  destruct (IsStringMap m);
    [split; [split; [done | intuition discriminate] | by eexists]|].
  destruct (has_sloppy_arguments_elements m);
    [split; [split; [done | intuition discriminate] | by eexists]|].
  destruct (has_fast_elements m);
    [split; [split; [done | intuition discriminate] | by eexists]|].
  destruct (has_fixed_typed_array_elements m);
    [split; [split; [done | intuition discriminate] | by eexists]|].
  cbn. destruct build, (has_dictionary_elements m); cbn;
    (split; [split; [done || intuition discriminate | intuition discriminate]
            | done || by eexists]).
Qed.

(** X6.  The extra IC state of a keyed load matters for dictionary elements
    only: when one of the first four rules applies, the handler is the same
    for every extra state; when none applies, maps given different extra
    states get different handlers. *)
Theorem keyed_load_extra_state_only_for_dictionary
    (build : BuildMode) (m : Map) (extra1 extra2 : ExtraICState) :
  (has_indexed_interceptor m = true \/ IsStringMap m = true \/
   has_sloppy_arguments_elements m = true \/
   has_fast_elements m || has_fixed_typed_array_elements m = true ->
   ComputeKeyedLoadMonomorphicHandler build m extra1
   = ComputeKeyedLoadMonomorphicHandler build m extra2) /\
  (has_indexed_interceptor m = false -> IsStringMap m = false ->
   has_sloppy_arguments_elements m = false ->
   has_fast_elements m || has_fixed_typed_array_elements m = false ->
   ComputeKeyedLoadMonomorphicHandler build m extra1 <> Aborted ->
   ComputeKeyedLoadMonomorphicHandler build m extra1
   = ComputeKeyedLoadMonomorphicHandler build m extra2 ->
   extra1 = extra2).
Proof.
  unfold ComputeKeyedLoadMonomorphicHandler. split.
  - destruct (has_indexed_interceptor m); [done|].
    destruct (IsStringMap m); [done|].
    destruct (has_sloppy_arguments_elements m); [done|].
    destruct (_ || _); [done|]. intuition discriminate.
  - intros -> -> -> ->.
    destruct (DCHECK build (has_dictionary_elements m)) as [[]|]; cbn;
      [|done].
    by intros _ [=].
Qed.

(** *** Keyed stores *)

Lemma CompileKeyedStorePolymorphicHandlers_inv build compiler maps out store_mode out' :
  CompileKeyedStorePolymorphicHandlers build compiler maps out store_mode = Done out' ->
  handlers out' = handlers out ++ (cached_stub_for maps store_mode <$> maps) /\
  transitioned_maps out'
  = transitioned_maps out ++ ((fun m => FindTransitionedMap m maps) <$> maps).
Proof.
  rewrite CompileKeyedStorePolymorphicHandlers_run. by intros [= <-].
Qed.

Lemma lookup_appended_fmap {A B : Type} (f : A -> B) (old : list B)
    (l : list A) (i : nat) (x : A) :
  l !! i = Some x -> (old ++ (f <$> l)) !! (length old + i)%nat = Some (f x).
Proof.
  intros Hx. rewrite lookup_app_r by lia.
  replace (length old + i - length old)%nat with i by lia.
  by rewrite list_lookup_fmap, Hx.
Qed.

(** X7.  In the lists appended by the polymorphic computation no handler is
    null, and the entry of the transitioned-map list is non-null exactly
    where the handler is an elements-transition-and-store stub. *)
Theorem keyed_store_polymorphic_lists_correlate
    (build : BuildMode) (compiler : PropertyICCompiler) (maps : list Map)
    (out out' : StoreHandlerLists) (store_mode : KeyedAccessStoreMode) :
  CompileKeyedStorePolymorphicHandlers build compiler maps out store_mode = Done out' ->
  exists new_handlers new_maps,
    handlers out' = handlers out ++ new_handlers /\
    transitioned_maps out' = transitioned_maps out ++ new_maps /\
    Forall2 (fun transitioned handler =>
               is_null handler = false /\
               is_transition_stub handler = negb (is_null transitioned))
            new_maps new_handlers.
Proof.
  intros (Hh & Ht)%CompileKeyedStorePolymorphicHandlers_inv.
  eexists _, _. split; [exact Hh|]. split; [exact Ht|].
  apply Forall2_fmap, Forall_Forall2_diag, Forall_forall.
  intros m _. split; [apply cached_stub_for_not_null|].
  unfold cached_stub_for.
  destruct (FindTransitionedMap m maps); [done|]. cbn.
  repeat (case_match; try done).
Qed.

(** X8.  Every handler appended by the polymorphic computation is either
    the slow keyed-store builtin, which takes no store mode, or the code of
    a stub built with the requested store mode; the builtin is appended
    exactly for the receiver maps that have no transitioned map and an
    instance type below FIRST_JS_RECEIVER_TYPE. *)
Theorem keyed_store_polymorphic_store_modes
    (build : BuildMode) (compiler : PropertyICCompiler) (maps : list Map)
    (out out' : StoreHandlerLists) (store_mode : KeyedAccessStoreMode)
    (i : nat) (m : Map) :
  CompileKeyedStorePolymorphicHandlers build compiler maps out store_mode = Done out' ->
  maps !! i = Some m ->
  exists handler,
    handlers out' !! (length (handlers out) + i)%nat = Some handler /\
    (handler = Some (BuiltinCode KeyedStoreIC_Slow) <->
     FindTransitionedMap m maps = None /\
     instance_type m < FIRST_JS_RECEIVER_TYPE) /\
    (handler <> Some (BuiltinCode KeyedStoreIC_Slow) ->
     handler_store_mode handler = Some store_mode).
Proof.
  intros (Hh & _)%CompileKeyedStorePolymorphicHandlers_inv Hm.
  exists (cached_stub_for maps store_mode m). split.
  { rewrite Hh. by apply lookup_appended_fmap. }
  unfold cached_stub_for.
  destruct (FindTransitionedMap m maps) as [to_map|].
  { split; [split; [done | by intros [? _]] | done]. }
  destruct (decide (instance_type m < FIRST_JS_RECEIVER_TYPE)) as [Hlt|Hge].
  { rewrite bool_decide_eq_true_2 by done. split; [done|congruence]. }
  rewrite bool_decide_eq_false_2 by done.
  repeat case_match; (split; [split; [done | by intros [_ ?]] | done]).
Qed.

(** X9.  The polymorphic and the monomorphic computation agree: for a
    receiver map that has no transitioned map among the receiver maps, whose
    instance type is not below FIRST_JS_RECEIVER_TYPE and on which the two
    tests for sloppy-arguments elements (on the elements kind and on the
    map) agree, the handler appended by the polymorphic computation is the
    handler the monomorphic computation returns. *)
Theorem keyed_store_polymorphic_agrees_with_monomorphic
    (build : BuildMode) (compiler compiler' : PropertyICCompiler)
    (maps : list Map) (out out' : StoreHandlerLists)
    (store_mode : KeyedAccessStoreMode) (i : nat) (m : Map) :
  CompileKeyedStorePolymorphicHandlers build compiler maps out store_mode = Done out' ->
  maps !! i = Some m ->
  FindTransitionedMap m maps = None ->
  ~ instance_type m < FIRST_JS_RECEIVER_TYPE ->
  IsSloppyArgumentsElements (elements_kind m) = has_sloppy_arguments_elements m ->
  handlers out' !! (length (handlers out) + i)%nat
  = Some (CompileKeyedStoreMonomorphicHandler compiler' m store_mode).
Proof.
  intros (Hh & _)%CompileKeyedStorePolymorphicHandlers_inv Hm Hnone Hge Hsloppy.
  rewrite Hh, (lookup_appended_fmap _ _ _ _ _ Hm). f_equal.
  unfold cached_stub_for, CompileKeyedStoreMonomorphicHandler.
  by rewrite Hnone, bool_decide_eq_false_2, Hsloppy.
Qed.

(** X10.  Assertions only ever stop a computation: whenever a debug build
    finishes a handler computation, a release build finishes it with the
    same result. *)
Theorem release_build_agrees_with_debug_build :
  (forall m extra handler,
     ComputeKeyedLoadMonomorphicHandler DebugBuild m extra = Done handler ->
     ComputeKeyedLoadMonomorphicHandler ReleaseBuild m extra = Done handler) /\
  (forall m language_mode store_mode handler,
     ComputeKeyedStoreMonomorphicHandler DebugBuild m language_mode store_mode
       = Done handler ->
     ComputeKeyedStoreMonomorphicHandler ReleaseBuild m language_mode store_mode
       = Done handler) /\
  (forall maps out store_mode language_mode out',
     ComputeKeyedStorePolymorphicHandlers DebugBuild maps out store_mode
       language_mode = Done out' ->
     ComputeKeyedStorePolymorphicHandlers ReleaseBuild maps out store_mode
       language_mode = Done out') /\
  (forall st extra isolate result,
     ComputeStore DebugBuild st extra isolate = Done result ->
     ComputeStore ReleaseBuild st extra isolate = Done result).
Proof.
  split; [|split; [|split]].
  - intros m extra handler. unfold ComputeKeyedLoadMonomorphicHandler.
    repeat (case_match; try done).
    by destruct (has_dictionary_elements m).
  - intros m language_mode store_mode handler.
    unfold ComputeKeyedStoreMonomorphicHandler.
    by destruct (supported_store_mode store_mode).
  - intros maps out store_mode language_mode out' Hrun.
    destruct maps as [|m0 maps]; [done|].
    destruct (supported_store_mode store_mode) eqn:Hs.
    + rewrite ComputeKeyedStorePolymorphicHandlers_run in Hrun by auto.
      rewrite ComputeKeyedStorePolymorphicHandlers_run by auto. done.
    + unfold ComputeKeyedStorePolymorphicHandlers in Hrun.
      by rewrite Hs in Hrun.
  - intros st extra isolate result.
    unfold ComputeStore, heap_bind, heap_check.
    by destruct (bool_decide (MEGAMORPHIC = st)).
Qed.

End CompilerProperties.

(** ** Further properties of the IC base class *)

Section ICProperties.

Context `{D : Declarations}.
Context {Kind_eq_dec : EqDecision Kind}.
Variables LOAD_IC KEYED_LOAD_IC CALL_IC : Kind.
Variable ExtractMaps : FeedbackNexus -> list Map.

Lemma fold_left_Add {A : Type} (new old : list A) :
  fold_left Add new old = old ++ new.
Proof.
  revert old. induction new as [|x new IH]; intros old; cbn.
  - by rewrite app_nil_r.
  - rewrite IH. unfold Add. by rewrite <- app_assoc.
Qed.

Lemma FindTargetMaps_set build ic :
  target_maps_set_ ic = true ->
  FindTargetMaps LOAD_IC KEYED_LOAD_IC CALL_IC ExtractMaps build ic = Done ic.
Proof. unfold FindTargetMaps. by intros ->. Qed.

Lemma FindTargetMaps_Done build ic ic1 :
  FindTargetMaps LOAD_IC KEYED_LOAD_IC CALL_IC ExtractMaps build ic = Done ic1 ->
  target_maps_set_ ic1 = true /\
  (target_maps_set_ ic = true -> ic1 = ic) /\
  (target_maps_set_ ic = false ->
   exists nexus,
     nexus_ ic = Some nexus /\
     ic1 = set_target_maps ic (target_maps_ ic ++ ExtractMaps nexus) true).
Proof.
  unfold FindTargetMaps. destruct (target_maps_set_ ic) eqn:Hset.
  - intros [= <-]. by repeat split.
  - destruct (DCHECK_UseVector _ _ _ _ _) as [[]|]; [|done]. cbn.
    destruct (nexus_ ic) as [nexus|]; [|done].
    intros [= <-]. split; [done|]. split; [done|]. intros _. by exists nexus.
Qed.

(** X11.  The target maps are read from the feedback nexus at most once:
    a successful TargetMaps appends the IC's target maps to the list it is
    given and leaves the IC marked, so that every later TargetMaps or
    FirstTargetMap, in any build, answers from the stored list without
    changing the IC; FirstTargetMap then returns the first stored map, or
    null when there is none. *)
Theorem TargetMaps_reads_the_nexus_once
    (build : BuildMode) (ic ic1 : IC) (maps maps1 : list Map) :
  TargetMaps LOAD_IC KEYED_LOAD_IC CALL_IC ExtractMaps build ic maps
    = Done (ic1, maps1) ->
  maps1 = maps ++ target_maps_ ic1 /\
  (target_maps_set_ ic = true -> ic1 = ic) /\
  (target_maps_set_ ic = false ->
   exists nexus,
     nexus_ ic = Some nexus /\
     target_maps_ ic1 = target_maps_ ic ++ ExtractMaps nexus) /\
  (forall build' maps',
     TargetMaps LOAD_IC KEYED_LOAD_IC CALL_IC ExtractMaps build' ic1 maps'
     = Done (ic1, maps' ++ target_maps_ ic1)) /\
  (forall build',
     FirstTargetMap LOAD_IC KEYED_LOAD_IC CALL_IC ExtractMaps build' ic1
     = Done (ic1, head (target_maps_ ic1))).
Proof.
  unfold TargetMaps.
  destruct (FindTargetMaps _ _ _ _ build ic) as [ic2|] eqn:Hfind; [|done].
  cbn. intros [= <- <-].
  destruct (FindTargetMaps_Done _ _ _ Hfind) as (Hset & Hsame & Hnew).
  split; [apply fold_left_Add|]. split; [done|]. split.
  { intros Hunset. destruct (Hnew Hunset) as (nexus & Hn & ->). by exists nexus. }
  split.
  - intros build' maps'. rewrite FindTargetMaps_set by done. cbn.
    by rewrite fold_left_Add.
  - intros build'. unfold FirstTargetMap. rewrite FindTargetMaps_set by done.
    cbn. by destruct (target_maps_ ic2).
Qed.

(** X12.  FindTargetMaps fails only on an IC whose target maps are not yet
    set: when the IC has no feedback nexus, or, in a debug build, when the
    IC's kind is none of the kinds that use the feedback vector. *)
Theorem FindTargetMaps_fails_without_nexus (build : BuildMode) (ic : IC) :
  FindTargetMaps LOAD_IC KEYED_LOAD_IC CALL_IC ExtractMaps build ic = Aborted <->
  target_maps_set_ ic = false /\
  (nexus_ ic = None \/
   (build = DebugBuild /\
    ICUseVector LOAD_IC KEYED_LOAD_IC CALL_IC (kind_ ic) = false)).
Proof.
  unfold FindTargetMaps, DCHECK_UseVector, UseVector.
  destruct (target_maps_set_ ic); [intuition discriminate|]. cbn.
  destruct build, (ICUseVector _ _ _ (kind_ ic)), (nexus_ ic); cbn;
    intuition (discriminate || auto).
Qed.


Variable RecomputeHandlerForName : IC -> Object -> bool.

(** X14.  Marking an IC that is already marked loses the state saved by the
    first marking: after two successful MarkRecomputeHandler calls
    saved_state() is RECOMPUTE_HANDLER itself.  Marking changes the two
    state fields only. *)
Theorem MarkRecomputeHandler_twice_loses_the_saved_state
    (build : BuildMode) (ic ic1 ic2 : IC) (name name' : Object) :
  MarkRecomputeHandler RecomputeHandlerForName build ic name = Done ic1 ->
  MarkRecomputeHandler RecomputeHandlerForName build ic1 name' = Done ic2 ->
  saved_state ic1 = state ic /\
  saved_state ic2 = RECOMPUTE_HANDLER /\
  ic2 = set_states ic RECOMPUTE_HANDLER RECOMPUTE_HANDLER /\
  receiver_map ic2 = receiver_map ic /\ kind_ ic2 = kind_ ic /\
  target_maps_ ic2 = target_maps_ ic /\ nexus_ ic2 = nexus_ ic.
Proof.
  unfold MarkRecomputeHandler.
  destruct (DCHECK build (RecomputeHandlerForName ic name)) as [[]|]; [|done].
  cbn. intros [= <-].
  destruct (DCHECK build _) as [[]|]; [|done].
  cbn. intros [= <-].
  unfold saved_state, state. cbn.
  by rewrite bool_decide_eq_true_2.
Qed.

End ICProperties.

(** ** Properties of the regular-expression scanner and sub-parsers *)

Module RegExpFacts.

Import RegExp.

Section Scanner.

Context `{R : RegExp.Declarations}.

(** [q] is [p] up to the three fields the scanner moves. *)
Lemma set_scanner_id p : set_scanner p (current_ p) (next_pos_ p) (has_more_ p) = p.
Proof. by destruct p. Qed.

Lemma set_scanner_twice p c n h c' n' h' :
  set_scanner (set_scanner p c n h) c' n' h' = set_scanner p c' n' h'.
Proof. done. Qed.

Lemma ReadNext_update p :
  snd (ReadNext true p)
  = set_scanner p (current_ p) (next_pos_ (snd (ReadNext true p))) (has_more_ p).
Proof.
  unfold ReadNext.
  destruct (unicode p && _ && _); [|done].
  by destruct (IsTrailSurrogate _).
Qed.

Lemma ReadNext_fst update p c n h :
  fst (ReadNext update (set_scanner p c n h))
  = fst (ReadNext true (set_scanner p (current_ p) n true)).
Proof.
  unfold ReadNext, unicode, in_length, Get. cbn.
  destruct (unicode_ p && _ && _); [|by destruct update].
  destruct (IsTrailSurrogate _); by destruct update.
Qed.

Lemma ReadNext_next_pos p c n h :
  next_pos_ (snd (ReadNext true (set_scanner p c n h)))
  = next_pos_ (snd (ReadNext true (set_scanner p (current_ p) n true))).
Proof.
  unfold ReadNext, unicode, in_length, Get. cbn.
  destruct (unicode_ p && _ && _); [|done].
  by destruct (IsTrailSurrogate _).
Qed.

Lemma ReadNext_progress p :
  next_pos_ p < next_pos_ (snd (ReadNext true p)).
Proof.
  unfold ReadNext.
  destruct (unicode p && _ && _); [|cbn; lia].
  destruct (IsTrailSurrogate _); cbn; lia.
Qed.


(** What Advance does when no resource check trips. *)
Lemma Advance_read p :
  no_resource_failure ->
  has_next p = true ->
  Advance p
  = set_scanner p (fst (ReadNext true p)) (next_pos_ (snd (ReadNext true p)))
      (has_more_ p).
Proof.
  intros Hres Hnext. unfold Advance. rewrite Hnext.
  destruct (Hres p) as [-> ->].
  pose proof (ReadNext_update p) as Hupdate.
  destruct (ReadNext true p) as [c q]. cbn in *.
  by rewrite Hupdate.
Qed.

Lemma Advance_end p :
  has_next p = false ->
  Advance p = set_scanner p kEndMarker (in_length p + 1) false.
Proof. unfold Advance. by intros ->. Qed.

Lemma Advance_scanner_only p :
  no_resource_failure ->
  exists c n h, Advance p = set_scanner p c n h.
Proof.
  intros Hres. destruct (has_next p) eqn:Hnext.
  - rewrite Advance_read by done. by eexists _, _, _.
  - rewrite Advance_end by done. by eexists _, _, _.
Qed.

(** Reset looks at none of the three scanner fields. *)
Lemma Reset_set_scanner p c n h pos :
  no_resource_failure ->
  Reset (set_scanner p c n h) pos = Reset p pos.
Proof.
  intros Hres. unfold Reset. rewrite set_scanner_twice.
  change (in_length (set_scanner p c n h)) with (in_length p).
  change (current_ (set_scanner p c n h)) with c.
  set (b := bool_decide (pos < in_length p)).
  destruct (has_next (set_scanner p c pos b)) eqn:Hnext.
  - rewrite (Advance_read (set_scanner p c pos b)) by done.
    rewrite (Advance_read (set_scanner p (current_ p) pos b)) by done.
    rewrite !set_scanner_twice.
    rewrite (ReadNext_fst true p c pos b), (ReadNext_fst true p (current_ p) pos b).
    by rewrite (ReadNext_next_pos p c pos b), (ReadNext_next_pos p (current_ p) pos b).
  - rewrite (Advance_end (set_scanner p c pos b)) by done.
    by rewrite (Advance_end (set_scanner p (current_ p) pos b)) by done.
Qed.

Lemma Reset_Advance p pos :
  no_resource_failure -> Reset (Advance p) pos = Reset p pos.
Proof.
  intros Hres. destruct (Advance_scanner_only p Hres) as (c & n & h & ->).
  by apply Reset_set_scanner.
Qed.

Lemma Reset_position_settled (p : RegExpParser) :
  no_resource_failure ->
  scanner_settled p ->
  Reset p (position p) = p.
Proof.
  intros Hres [(Hmore & Hpos & Hcur & Hnext) | (Hmore & Hpos & Hcur)].
  - unfold Reset. rewrite bool_decide_eq_true_2 by lia.
    rewrite Advance_read; [|done|].
    + rewrite Hcur, Hnext. clear Hcur Hnext.
      destruct p; cbn in *. by subst.
    + unfold has_next. cbn. apply bool_decide_eq_true_2.
      change (in_length (set_scanner p (current_ p) (position p) true))
        with (in_length p). lia.
  - unfold Reset, position. rewrite Hpos.
    rewrite bool_decide_eq_false_2 by lia.
    rewrite Advance_end.
    + change (in_length (set_scanner _ _ _ _)) with (in_length p).
      unfold in_length in *. destruct p; cbn in *. by subst.
    + unfold has_next. cbn. apply bool_decide_eq_false_2.
      change (in_length (set_scanner _ _ _ _)) with (in_length p). lia.
Qed.






(** X17.  Next() is a faithful look-ahead: the character it reports is the
    one that the next Advance makes current, the end marker included. *)
Theorem Next_is_current_after_Advance (p : RegExpParser) :
  no_resource_failure ->
  current (Advance p) = Next p.
Proof.
  intros Hres. unfold Next. destruct (has_next p) eqn:Hnext.
  - rewrite Advance_read by done. cbn.
    rewrite <- (set_scanner_id p) at 1 2.
    rewrite (ReadNext_fst true p), (ReadNext_fst false p). done.
  - by rewrite Advance_end.
Qed.



Lemma ReportError_then_Advance p message (steps : nat) :
  exists n h,
    Nat.iter steps Advance (ReportError p message)
    = set_scanner (set_error p message) kEndMarker n h /\
    in_length p <= n.
Proof.
  induction steps as [|steps (n & h & IH & Hn)].
  - cbn. eexists _, _. split; [reflexivity|]. unfold in_length. cbn. lia.
  - rewrite Nat.iter_succ, IH. rewrite Advance_end.
    + eexists _, _. split; [reflexivity|]. cbn.
      change (in_length (set_scanner _ _ _ _)) with (in_length p). lia.
    + apply bool_decide_eq_false_2. cbn.
      change (in_length (set_scanner _ _ _ _)) with (in_length p). lia.
Qed.

(** X19.  After ReportError no more input is read: the parser has failed
    and holds the message, the current character is the end marker, and it
    stays so, with the same message, under any number of Advance calls;
    Next() answers the end marker as well. *)
Theorem ReportError_zips_to_the_end
    (p : RegExpParser) (message : string) (steps : nat) :
  let q := Nat.iter steps Advance (ReportError p message) in
  failed q = true /\ error_ q = Some message /\
  current q = kEndMarker /\ Next q = kEndMarker /\ has_next q = false.
Proof.
  cbn. destruct (ReportError_then_Advance p message steps) as (n & h & -> & Hn).
  assert (has_next (set_scanner (set_error p message) kEndMarker n h) = false)
    as Hnext.
  { apply bool_decide_eq_false_2. cbn.
    change (in_length (set_scanner _ _ _ _)) with (in_length p). lia. }
  unfold Next. rewrite Hnext. by repeat split.
Qed.

End Scanner.

Section SubParsers.

Context `{R : RegExp.Declarations}.

Lemma is_octal_digit_range c : is_octal_digit c = true <-> 48 <= c <= 55.
Proof.
  unfold is_octal_digit. rewrite andb_true_iff, !bool_decide_eq_true. lia.
Qed.

(** X20.  ParseOctalLiteral, started on an octal digit, returns a value
    from 0 to 255 and consumes one, two or three characters. *)
Theorem ParseOctalLiteral_below_256 (build : BuildMode) (p : RegExpParser) :
  is_octal_digit (current p) = true ->
  exists value p' (digits : nat),
    ParseOctalLiteral build p = Done (value, p') /\
    0 <= value <= 255 /\
    (1 <= digits <= 3)%nat /\ p' = Nat.iter digits Advance p.
Proof.
  intros Hd. unfold ParseOctalLiteral. rewrite Hd. cbn [orb].
  rewrite DCHECK_true, checked_bind_Done.
  apply is_octal_digit_range in Hd.
  destruct (is_octal_digit (current (Advance p))) eqn:Hd2.
  - apply is_octal_digit_range in Hd2.
    destruct (bool_decide ((current p - 48) * 8 + current (Advance p) - 48 < 32))
      eqn:Hlt; cbn [andb].
    + apply bool_decide_eq_true_1 in Hlt.
      destruct (is_octal_digit (current (Advance (Advance p)))) eqn:Hd3.
      * apply is_octal_digit_range in Hd3.
        eexists _, _, 3%nat.
        split; [reflexivity|]. split; [lia|]. split; [lia|done].
      * eexists _, _, 2%nat. split; [reflexivity|]. split; [lia|].
        split; [lia|done].
    + eexists _, _, 2%nat. split; [reflexivity|]. split; [lia|].
      split; [lia|done].
  - eexists _, _, 1%nat. split; [reflexivity|]. split; [lia|].
    split; [lia|done].
Qed.

(** *** ParseHexEscape *)

Lemma ParseHexEscape_loop_failure n start val value p v' p' :
  no_resource_failure ->
  ParseHexEscape_loop n start val value p = (false, v', p') ->
  v' = value /\ p' = Reset p start.
Proof.
  intros Hres. revert val p.
  induction n as [|n IH]; intros val p; cbn; [done|].
  destruct (bool_decide (HexValue (current p) < 0)).
  - by intros [= <- <-].
  - intros Hrun. destruct (IH _ _ Hrun) as [-> ->].
    by rewrite Reset_Advance.
Qed.

Lemma ParseHexEscape_loop_success n start val value p v' p' :
  (forall c, HexValue c < 16) ->
  ParseHexEscape_loop n start val value p = (true, v', p') ->
  val * 16 ^ Z.of_nat n <= v' < (val + 1) * 16 ^ Z.of_nat n /\
  p' = Nat.iter n Advance p.
Proof.
  intros Hhex. revert val p.
  induction n as [|n IH]; intros val p.
  - cbn. intros [= <- <-]. split; [lia|done].
  - cbn [ParseHexEscape_loop].
    destruct (bool_decide (HexValue (current p) < 0)) eqn:Hd; [done|].
    apply bool_decide_eq_false_1 in Hd. intros Hrun.
    destruct (IH _ _ Hrun) as [Hv ->].
    split; [|by rewrite Nat.iter_succ_r].
    pose proof (Hhex (current p)).
    replace (Z.of_nat (S n)) with (Z.of_nat n + 1) by lia.
    rewrite Z.pow_add_r, Z.pow_1_r by lia.
    assert (0 < 16 ^ Z.of_nat n) by (apply Z.pow_pos_nonneg; lia).
    nia.
Qed.


(** *** Loops over the rest of the input *)

Lemma Advance_cases p :
  (exists n, next_pos_ p < n /\ next_pos_ p < in_length p /\
             next_pos_ (Advance p) = n /\ in_ (Advance p) = in_ p) \/
  (current (Advance p) = kEndMarker /\ in_ (Advance p) = in_ p /\
   in_length p <= next_pos_ (Advance p)).
Proof.
  unfold Advance. destruct (has_next p) eqn:Hnext.
  - apply bool_decide_eq_true_1 in Hnext.
    destruct (HasOverflowed p);
      [right; split; [done|]; split; [done|];
       unfold ReportError, in_length; cbn; lia|].
    destruct (excess_allocation p);
      [right; split; [done|]; split; [done|];
       unfold ReportError, in_length; cbn; lia|].
    left. pose proof (ReadNext_progress p) as Hprog.
    pose proof (ReadNext_update p) as Hupd.
    destruct (ReadNext true p) as [c q]. cbn in *.
    exists (next_pos_ q). rewrite Hupd. cbn. done.
  - right. split; [done|]. split; [done|]. unfold in_length. cbn. lia.
Qed.

Lemma Advance_progress p :
  current (Advance p) <> kEndMarker ->
  (remaining_input (Advance p) < remaining_input p)%nat.
Proof.
  intros Hcur. unfold remaining_input.
  destruct (Advance_cases p) as [(n & Hlt & Hin & -> & ->) | (Hend & _)];
    [|done].
  unfold in_length in Hin. lia.
Qed.

Lemma Advance_remaining p :
  (remaining_input (Advance p) <= remaining_input p)%nat.
Proof.
  unfold remaining_input.
  destruct (Advance_cases p) as [(n & Hlt & Hin & -> & ->) | (_ & -> & Hle)].
  - lia.
  - unfold in_length in Hle. lia.
Qed.

Lemma ParseUnlimitedLengthHexNumber_loop_run (max_value value : Z) :
  HexValue kEndMarker < 0 ->
  forall (fuel : nat) (x : Z) (p : RegExpParser),
    0 <= x ->
    (remaining_input p + 1 <= fuel)%nat ->
    exists ok v p',
      ParseUnlimitedLengthHexNumber_loop fuel max_value x
        (HexValue (current p)) value p = Some (ok, v, p') /\
      (ok = true ->
       HexValue (current p') < 0 /\
       (v = x \/ 0 <= v <= max_value) /\
       (HexValue (current p) >= 0 -> 0 <= v <= max_value)) /\
      (ok = false -> v = value).
Proof.
  intros Hend fuel.
  induction fuel as [|fuel IH]; intros x p Hx Hfuel; [lia|].
  cbn [ParseUnlimitedLengthHexNumber_loop].
  destruct (bool_decide (HexValue (current p) >= 0)) eqn:Hd.
  - apply bool_decide_eq_true_1 in Hd.
    destruct (bool_decide (x * 16 + HexValue (current p) > max_value)) eqn:Hmax.
    { eexists _, _, _. split; [reflexivity|]. by split. }
    apply bool_decide_eq_false_1 in Hmax.
    destruct (decide (HexValue (current (Advance p)) >= 0)) as [Hd'|Hd'].
    + assert (current (Advance p) <> kEndMarker) as Hne.
      { intros Heq. rewrite Heq in Hd'. lia. }
      pose proof (Advance_progress p Hne) as Hprog.
      destruct (IH (x * 16 + HexValue (current p)) (Advance p))
        as (ok & v & p' & Hrun & Htrue & Hfalse); [lia | lia |].
      exists ok, v, p'. split; [exact Hrun|]. split; [|done].
      intros Hok. destruct (Htrue Hok) as (Hstop & Hv & _).
      split; [done|]. split; [right; lia | intros _; lia].
    + exists true, (x * 16 + HexValue (current p)), (Advance p). split.
      { destruct fuel as [|fuel']; cbn [ParseUnlimitedLengthHexNumber_loop];
          by rewrite bool_decide_eq_false_2. }
      split; [|done]. intros _. split; [lia|]. split; [right; lia | intros _; lia].
  - apply bool_decide_eq_false_1 in Hd.
    exists true, x, p. split; [reflexivity|]. split; [|done].
    intros _. split; [lia|]. split; [by left | lia].
Qed.


(** *** ParseIntervalQuantifier *)

Lemma Advance_moves_scanner p :
  no_resource_failure -> exists c n h, Advance p = set_scanner p c n h.
Proof. apply Advance_scanner_only. Qed.

Lemma moved_Advance p q :
  no_resource_failure ->
  (exists c n h, q = set_scanner p c n h) ->
  exists c n h, Advance q = set_scanner p c n h.
Proof.
  intros Hres (c & n & h & ->).
  destruct (Advance_moves_scanner (set_scanner p c n h) Hres) as (c' & n' & h' & ->).
  by eexists _, _, _.
Qed.

Lemma moved_Reset p q start :
  no_resource_failure ->
  (exists c n h, q = set_scanner p c n h) ->
  Reset q start = Reset p start.
Proof. intros Hres (c & n & h & ->). by apply Reset_set_scanner. Qed.




(** *** Capture groups and back references *)

Lemma Advance_keeps p :
  in_ (Advance p) = in_ p /\
  captures_started_ (Advance p) = captures_started_ p /\
  capture_count_ (Advance p) = capture_count_ p /\
  is_scanned_for_captures_ (Advance p) = is_scanned_for_captures_ p.
Proof.
  unfold Advance. destruct (has_next p); [|done].
  destruct (HasOverflowed p); [done|].
  destruct (excess_allocation p); [done|].
  pose proof (ReadNext_update p) as Hupd.
  destruct (ReadNext true p) as [c q]. cbn in *. by rewrite Hupd.
Qed.

Lemma Reset_keeps p pos :
  in_ (Reset p pos) = in_ p /\
  captures_started_ (Reset p pos) = captures_started_ p /\
  capture_count_ (Reset p pos) = capture_count_ p /\
  is_scanned_for_captures_ (Reset p pos) = is_scanned_for_captures_ p.
Proof.
  unfold Reset.
  exact (Advance_keeps
           (set_scanner p (current_ p) pos (bool_decide (pos < in_length p)))).
Qed.

(** The input is used up, for good. *)
Lemma Advance_after_end p :
  in_length p <= next_pos_ p ->
  current (Advance p) = kEndMarker /\ in_length (Advance p) <= next_pos_ (Advance p).
Proof.
  intros Hend.
  destruct (Advance_cases p) as [(n & _ & Hlt & _) | (Hcur & Hin & Hle)]; [lia|].
  split; [done|]. unfold in_length. by rewrite Hin.
Qed.

Lemma Advance_step p :
  (current (Advance p) = kEndMarker /\
   in_length (Advance p) <= next_pos_ (Advance p)) \/
  (remaining_input (Advance p) < remaining_input p)%nat.
Proof.
  destruct (Advance_cases p) as [(n & Hlt & Hin & Hn & Heq) | (Hcur & Hin & Hle)].
  - right. unfold remaining_input. rewrite Hn, Heq.
    unfold in_length in Hin. lia.
  - left. split; [done|]. unfold in_length. by rewrite Hin.
Qed.

(** Enough fuel for the loops that run to the end marker. *)
Lemma fuel_Advance (fuel : nat) p :
  (current p = kEndMarker /\ in_length p <= next_pos_ p) \/
  (remaining_input p + 1 <= S fuel)%nat ->
  (current (Advance p) = kEndMarker /\
   in_length (Advance p) <= next_pos_ (Advance p)) \/
  (remaining_input (Advance p) + 1 <= fuel)%nat.
Proof.
  intros [[_ Hend] | Hfuel].
  - left. by apply Advance_after_end.
  - destruct (Advance_step p) as [Hended | Hprog]; [by left | right; lia].
Qed.

Lemma fuel_Advance_same (fuel : nat) p :
  (current p = kEndMarker /\ in_length p <= next_pos_ p) \/
  (remaining_input p + 1 <= fuel)%nat ->
  (current (Advance p) = kEndMarker /\
   in_length (Advance p) <= next_pos_ (Advance p)) \/
  (remaining_input (Advance p) + 1 <= fuel)%nat.
Proof.
  intros [[_ Hend] | Hfuel].
  - left. by apply Advance_after_end.
  - right. pose proof (Advance_remaining p). lia.
Qed.

Lemma ScanForCaptures_class_run (fuel : nat) :
  forall p,
    (current p = kEndMarker /\ in_length p <= next_pos_ p) \/
    (remaining_input p + 1 <= fuel)%nat ->
    exists p',
      ScanForCaptures_class fuel p = Some p' /\
      ((current p' = kEndMarker /\ in_length p' <= next_pos_ p') \/
       (remaining_input p' + 1 <= fuel)%nat) /\
      (no_resource_failure -> forall p0,
         (exists c n h, p = set_scanner p0 c n h) ->
         exists c n h, p' = set_scanner p0 c n h).
Proof.
  induction fuel as [|fuel IH]; intros p Hpre.
  - destruct Hpre as [[Hcur Hend] | ?]; [|lia].
    cbn. rewrite bool_decide_eq_false_2 by (by intros ?).
    exists p. split; [done|]. split; [by left | auto].
  - cbn [ScanForCaptures_class].
    destruct (decide (current p = kEndMarker)) as [Hcur|Hcur].
    { rewrite bool_decide_eq_false_2 by (by intros ?).
      exists p. split; [done|]. split; [done | auto]. }
    rewrite bool_decide_eq_true_2 by done.
    pose proof (fuel_Advance fuel p Hpre) as Hpre1.
    assert (forall q,
              (current q = kEndMarker /\ in_length q <= next_pos_ q) \/
              (remaining_input q + 1 <= fuel)%nat ->
              (current q = kEndMarker /\ in_length q <= next_pos_ q) \/
              (remaining_input q + 1 <= S fuel)%nat) as Hweaken.
    { intros q [?|?]; [by left | right; lia]. }
    destruct (bool_decide (current p = 92)).
    + destruct (IH (Advance (Advance p))) as (p' & Hrun & Hpre' & Hmoved).
      { by apply fuel_Advance_same. }
      exists p'. split; [exact Hrun|]. split; [by apply Hweaken|].
      intros Hres p0 Hp. apply Hmoved; [done|].
      by apply moved_Advance, moved_Advance.
    + destruct (bool_decide (current p = 93)).
      * exists (Advance p). split; [done|]. split; [by apply Hweaken|].
        intros Hres p0 Hp. by apply moved_Advance.
      * destruct (IH (Advance p) Hpre1) as (p' & Hrun & Hpre' & Hmoved).
        exists p'. split; [exact Hrun|]. split; [by apply Hweaken|].
        intros Hres p0 Hp. apply Hmoved; [done|]. by apply moved_Advance.
Qed.

Lemma ScanForCaptures_loop_run (fuel : nat) :
  forall capture_count p,
    (current p = kEndMarker /\ in_length p <= next_pos_ p) \/
    (remaining_input p + 1 <= fuel)%nat ->
    exists capture_count' p',
      ScanForCaptures_loop fuel capture_count p = Some (capture_count', p') /\
      capture_count <= capture_count' /\
      current p' = kEndMarker /\
      captures_started_ p' = captures_started_ p /\
      (no_resource_failure -> forall p0,
         (exists c n h, p = set_scanner p0 c n h) ->
         exists c n h, p' = set_scanner p0 c n h).
Proof.
  induction fuel as [|fuel IH]; intros capture_count p Hpre.
  - destruct Hpre as [[Hcur Hend] | ?]; [|lia].
    cbn. rewrite bool_decide_eq_false_2 by (by intros ?).
    exists capture_count, p. split; [done|]. split; [lia|]. split; [done|].
    split; [done | auto].
  - cbn [ScanForCaptures_loop].
    destruct (decide (current p = kEndMarker)) as [Hcur|Hcur].
    { rewrite bool_decide_eq_false_2 by (by intros ?).
      exists capture_count, p. split; [done|]. split; [lia|]. split; [done|].
      split; [done | auto]. }
    rewrite bool_decide_eq_true_2 by done.
    pose proof (fuel_Advance fuel p Hpre) as Hpre1.
    destruct (Advance_keeps p) as (_ & Hstarted1 & _).
    destruct (bool_decide (current p = 92)).
    { destruct (IH capture_count (Advance (Advance p)))
        as (cc & p' & Hrun & Hcc & Hend & Hstarted & Hmoved).
      { by apply fuel_Advance_same. }
      exists cc, p'. split; [exact Hrun|]. split; [done|]. split; [done|].
      split.
      { destruct (Advance_keeps (Advance p)) as (_ & Hstarted2 & _). congruence. }
      intros Hres p0 Hp. apply Hmoved; [done|].
      by apply moved_Advance, moved_Advance. }
    destruct (bool_decide (current p = 91)).
    { destruct (ScanForCaptures_class_run fuel (Advance p) Hpre1)
        as (p2 & Hclass & Hpre2 & Hmoved2).
      rewrite Hclass. cbn [mbind option_bind].
      destruct (IH capture_count p2 Hpre2)
        as (cc & p' & Hrun & Hcc & Hend & Hstarted & Hmoved).
      exists cc, p'. split; [exact Hrun|]. split; [done|]. split; [done|].
      split.
      { rewrite Hstarted, <- Hstarted1. clear -Hclass.
        revert Hclass. generalize (Advance p). clear p.
        induction fuel as [|fuel IHf]; intros q; cbn [ScanForCaptures_class];
          destruct (bool_decide (current q <> kEndMarker));
          try congruence.
        destruct (Advance_keeps q) as (_ & Hq & _).
        destruct (bool_decide (current q = 92)).
        - intros Hrun%IHf.
          destruct (Advance_keeps (Advance q)) as (_ & Hq2 & _). congruence.
        - destruct (bool_decide (current q = 93)); [congruence|].
          intros Hrun%IHf. congruence. }
      intros Hres p0 Hp. apply Hmoved; [done|]. apply Hmoved2; [done|].
      by apply moved_Advance. }
    destruct (bool_decide (current p = 40)).
    { destruct (IH (if bool_decide (current (Advance p) <> 63)
                    then capture_count + 1 else capture_count)
                   (Advance p) Hpre1)
        as (cc & p' & Hrun & Hcc & Hend & Hstarted & Hmoved).
      exists cc, p'. split; [exact Hrun|].
      split; [destruct (bool_decide (current (Advance p) <> 63)); lia|].
      split; [done|]. split; [congruence|].
      intros Hres p0 Hp. apply Hmoved; [done|]. by apply moved_Advance. }
    destruct (IH capture_count (Advance p) Hpre1)
      as (cc & p' & Hrun & Hcc & Hend & Hstarted & Hmoved).
    exists cc, p'. split; [exact Hrun|]. split; [done|]. split; [done|].
    split; [congruence|].
    intros Hres p0 Hp. apply Hmoved; [done|]. by apply moved_Advance.
Qed.

Lemma ScanForCaptures_run (fuel : nat) (p : RegExpParser) :
  (remaining_input p + 1 <= fuel)%nat ->
  exists p',
    ScanForCaptures fuel p = Some p' /\
    captures_started p <= capture_count_ p' /\
    is_scanned_for_captures_ p' = true /\
    captures_started p' = captures_started p /\
    current p' = kEndMarker /\
    (no_resource_failure ->
     exists c n h, p' = set_capture_count (set_scanner p c n h) (capture_count_ p')).
Proof.
  intros Hfuel. unfold ScanForCaptures.
  destruct (ScanForCaptures_loop_run fuel (captures_started p) p)
    as (cc & q & Hrun & Hcc & Hend & Hstarted & Hmoved); [by right|].
  rewrite Hrun. cbn [mbind option_bind].
  exists (set_capture_count q cc).
  split; [done|]. split; [done|]. split; [done|]. split; [done|].
  split; [done|].
  intros Hres. destruct (Hmoved Hres p) as (c & n & h & ->).
  { exists (current_ p), (next_pos_ p), (has_more_ p). by rewrite set_scanner_id. }
  by exists c, n, h.
Qed.

(** X25.  ScanForCaptures ends within as many steps as input is left, at
    the end of the input.  It only ever adds to the number of captures
    already started, marks the parser as scanned, and leaves the number of
    captures started as it was. *)
Theorem ScanForCaptures_counts_up (fuel : nat) (p : RegExpParser) :
  (remaining_input p + 1 <= fuel)%nat ->
  exists p',
    ScanForCaptures fuel p = Some p' /\
    captures_started p <= capture_count_ p' /\
    is_scanned_for_captures_ p' = true /\
    captures_started p' = captures_started p /\
    current p' = kEndMarker /\
    (no_resource_failure ->
     exists c n h, p' = set_capture_count (set_scanner p c n h) (capture_count_ p')).
Proof. apply ScanForCaptures_run. Qed.

Lemma ReadNext_set_capture_count p cc :
  fst (ReadNext true (set_capture_count p cc)) = fst (ReadNext true p) /\
  next_pos_ (snd (ReadNext true (set_capture_count p cc)))
  = next_pos_ (snd (ReadNext true p)).
Proof.
  unfold ReadNext, unicode, in_length, Get. cbn.
  destruct (unicode_ p && _ && _); [|done].
  by destruct (IsTrailSurrogate _).
Qed.

Lemma Advance_set_capture_count p cc :
  no_resource_failure ->
  Advance (set_capture_count p cc) = set_capture_count (Advance p) cc.
Proof.
  intros Hres. destruct (has_next p) eqn:Hnext.
  - rewrite (Advance_read (set_capture_count p cc)), (Advance_read p) by done.
    destruct (ReadNext_set_capture_count p cc) as [-> ->]. done.
  - by rewrite (Advance_end (set_capture_count p cc)), (Advance_end p).
Qed.

Lemma Reset_set_capture_count p cc pos :
  no_resource_failure ->
  Reset (set_capture_count p cc) pos = set_capture_count (Reset p pos) cc.
Proof.
  intros Hres. unfold Reset.
  by rewrite <- Advance_set_capture_count.
Qed.

Lemma Reset_moves_scanner p pos :
  no_resource_failure -> exists c n h, Reset p pos = set_scanner p c n h.
Proof.
  intros Hres. unfold Reset.
  destruct (Advance_moves_scanner
              (set_scanner p (current_ p) pos (bool_decide (pos < in_length p)))
              Hres) as (c & n & h & ->).
  by exists c, n, h.
Qed.

Lemma ParseBackReferenceIndex_digits_run :
  (forall c, IsDecimalDigit c = true -> 48 <= c <= 57) ->
  IsDecimalDigit kEndMarker = false ->
  forall (fuel : nat) (start value : Z) (p : RegExpParser),
    0 <= value <= kMaxCaptures ->
    (remaining_input p + 1 <= fuel)%nat ->
    exists r,
      ParseBackReferenceIndex_digits fuel start value p = Some r /\
      match r with
      | inl p' =>
          captures_started_ p' = captures_started_ p /\
          (no_resource_failure -> forall p0,
             (exists c n h, p = set_scanner p0 c n h) ->
             p' = Reset p0 start)
      | inr (value', p') =>
          value <= value' <= kMaxCaptures /\
          (remaining_input p' <= remaining_input p)%nat /\
          captures_started_ p' = captures_started_ p /\
          capture_count_ p' = capture_count_ p /\
          is_scanned_for_captures_ p' = is_scanned_for_captures_ p /\
          (no_resource_failure -> forall p0,
             (exists c n h, p = set_scanner p0 c n h) ->
             exists c n h, p' = set_scanner p0 c n h)
      end.
Proof.
  intros Hdigit Hend fuel.
  induction fuel as [|fuel IH]; intros start value p Hvalue Hfuel; [lia|].
  cbn [ParseBackReferenceIndex_digits].
  destruct (IsDecimalDigit (current p)) eqn:Hd.
  2:{ exists (inr (value, p)). split; [done|].
      split; [lia|]. split; [lia|]. repeat (split; [done|]). auto. }
  apply Hdigit in Hd.
  destruct (bool_decide (10 * value + (current p - 48) > kMaxCaptures)) eqn:Hmax.
  { exists (inl (Reset p start)). split; [done|].
    split; [by destruct (Reset_keeps p start) as (_ & ? & _)|].
    intros Hres p0 Hp. by apply moved_Reset. }
  apply bool_decide_eq_false_1 in Hmax.
  destruct (Advance_keeps p) as (_ & Hk1 & Hk2 & Hk3).
  destruct (IsDecimalDigit (current (Advance p))) eqn:Hd'.
  - assert (current (Advance p) <> kEndMarker) as Hne by congruence.
    pose proof (Advance_progress p Hne) as Hprog.
    destruct (IH start (10 * value + (current p - 48)) (Advance p))
      as (r & Hrun & Hr); [lia | lia |].
    exists r. split; [exact Hrun|].
    destruct r as [p' | [value' p']].
    + destruct Hr as (Hstarted & Hmoved). split; [congruence|].
      intros Hres p0 Hp. apply Hmoved; [done|]. by apply moved_Advance.
    + destruct Hr as (Hv & Hrem & H1 & H2 & H3 & Hmoved).
      split; [lia|]. split; [lia|].
      split; [congruence|]. split; [congruence|]. split; [congruence|].
      intros Hres p0 Hp. apply Hmoved; [done|]. by apply moved_Advance.
  - exists (inr (10 * value + (current p - 48), Advance p)). split.
    { destruct fuel; cbn [ParseBackReferenceIndex_digits]; by rewrite Hd'. }
    split; [lia|]. split; [apply Advance_remaining|].
    repeat (split; [done|]).
    intros Hres p0 Hp. by apply moved_Advance.
Qed.

(** X26.  ParseBackReferenceIndex, called on a backslash followed by a
    digit from 1 to 9, ends within as many steps as input is left.  When it
    succeeds, the index is at least 1, at most kMaxCaptures, and no greater
    than the number of captures started or, after a scan, than the number
    of capture groups counted in the whole pattern.  When it fails, the
    caller's variable is untouched and a settled parser is back where it
    started, except that the capture count of a scan is kept. *)
Theorem ParseBackReferenceIndex_within_captures
    (build : BuildMode) (fuel : nat) (p : RegExpParser) (index_out : Z) :
  9 <= kMaxCaptures ->
  (forall c, IsDecimalDigit c = true -> 48 <= c <= 57) ->
  IsDecimalDigit kEndMarker = false ->
  current p = 92 -> 49 <= Next p <= 57 ->
  (remaining_input p + 1 <= fuel)%nat ->
  exists ok index p',
    ParseBackReferenceIndex build fuel p index_out = Some (Done (ok, index, p')) /\
    captures_started p' = captures_started p /\
    (ok = true ->
     1 <= index <= kMaxCaptures /\
     (index <= captures_started p' \/
      (is_scanned_for_captures_ p' = true /\ index <= capture_count_ p'))) /\
    (ok = false ->
     index = index_out /\
     (no_resource_failure -> scanner_settled p ->
      p' = p \/ exists capture_count, p' = set_capture_count p capture_count)).
Proof.
  intros Hmax Hdigit Hend Hcur Hnext Hfuel. unfold ParseBackReferenceIndex.
  rewrite Hcur, (bool_decide_eq_true_2 (92 = 92)) by done.
  rewrite DCHECK_true, checked_bind_Done.
  rewrite (bool_decide_eq_true_2 (49 <= Next p)) by lia.
  rewrite (bool_decide_eq_true_2 (Next p <= 57)) by lia.
  cbn [andb]. rewrite DCHECK_true.
  set (p1 := Advance_by p 2).
  assert ((remaining_input p1 <= remaining_input p)%nat /\
          captures_started_ p1 = captures_started_ p /\
          capture_count_ p1 = capture_count_ p /\
          is_scanned_for_captures_ p1 = is_scanned_for_captures_ p /\
          (no_resource_failure -> exists c n h, p1 = set_scanner p c n h))
    as (Hrem1 & Hs1 & Hc1 & Hi1 & Hmoved1).
  { unfold p1, Advance_by.
    set (q := set_scanner p (current_ p) (next_pos_ p + (2 - 1)) (has_more_ p)).
    pose proof (Advance_remaining q) as Hq.
    destruct (Advance_keeps q) as (_ & H1 & H2 & H3).
    split. { unfold remaining_input in *. cbn in Hq. lia. }
    split; [done|]. split; [done|]. split; [done|].
    intros Hres. destruct (Advance_moves_scanner q Hres) as (c & n & h & ->).
    by exists c, n, h. }
  destruct (ParseBackReferenceIndex_digits_run Hdigit Hend fuel (position p)
              (Next p - 48) p1) as (r & Hrun & Hr); [lia | lia |].
  rewrite Hrun. cbn [mbind option_bind].
  assert (forall q, no_resource_failure -> scanner_settled p ->
            (exists c n h, q = set_scanner p c n h) ->
            Reset q (position p) = p) as Hback.
  { intros q Hres Hsettled Hq. rewrite (moved_Reset p q) by done.
    by apply Reset_position_settled. }
  destruct r as [p' | [value p2]].
  { destruct Hr as (Hstarted & Hreset).
    exists false, index_out, p'. split; [done|].
    split; [unfold captures_started; congruence|]. split; [done|].
    intros _. split; [done|]. intros Hres Hsettled. left.
    destruct (Hmoved1 Hres) as (c & n & h & Hp1).
    rewrite (Hreset Hres p) by (by exists c, n, h).
    by apply Reset_position_settled. }
  destruct Hr as (Hvalue & Hrem2 & Hs2 & Hc2 & Hi2 & Hmoved2).
  assert (no_resource_failure -> exists c n h, p2 = set_scanner p c n h) as Hp2.
  { intros Hres. apply Hmoved2; [done|]. by apply Hmoved1. }
  destruct (bool_decide (value > captures_started p2)) eqn:Hgt.
  2:{ apply bool_decide_eq_false_1 in Hgt.
      exists true, value, p2. split; [done|].
      split; [unfold captures_started; congruence|]. split; [|done].
      intros _. split; [lia | left; lia]. }
  destruct (is_scanned_for_captures_ p2) eqn:Hscanned; cbn [negb mbind option_bind].
  - (* the pattern has been scanned before *)
    destruct (bool_decide (value > capture_count_ p2)) eqn:Hcount.
    + exists false, index_out, (Reset p2 (position p)). split; [done|].
      split.
      { destruct (Reset_keeps p2 (position p)) as (_ & Hk & _).
        unfold captures_started. congruence. }
      split; [done|]. intros _. split; [done|].
      intros Hres Hsettled. left. by apply Hback; [..|apply Hp2].
    + apply bool_decide_eq_false_1 in Hcount.
      exists true, value, p2. split; [done|].
      split; [unfold captures_started; congruence|]. split; [|done].
      intros _. split; [lia | right; split; [done | lia]].
  - (* scan the rest of the pattern, then come back *)
    destruct (ScanForCaptures_run fuel p2)
      as (p3 & Hscan & Hcc & Hscanned3 & Hs3 & _ & Hmoved3); [lia|].
    rewrite Hscan. cbn [mbind option_bind].
    set (p4 := Reset p3 (position p2)).
    destruct (Reset_keeps p3 (position p2)) as (_ & Hs4 & Hc4 & Hi4).
    fold p4 in Hs4, Hc4, Hi4.
    destruct (bool_decide (value > capture_count_ p4)) eqn:Hcount.
    + exists false, index_out, (Reset p4 (position p)). split; [done|].
      split.
      { destruct (Reset_keeps p4 (position p)) as (_ & Hk & _).
        unfold captures_started in *. congruence. }
      split; [done|]. intros _. split; [done|].
      intros Hres Hsettled. right. exists (capture_count_ p3).
      destruct (Hmoved3 Hres) as (c & n & h & Hp3).
      destruct (Hp2 Hres) as (c2 & n2 & h2 & ->).
      destruct (Reset_moves_scanner p3 (position (set_scanner p c2 n2 h2)) Hres)
        as (c4 & n4 & h4 & Hp4).
      unfold p4. rewrite Hp4, Reset_set_scanner by done.
      rewrite Hp3, Reset_set_capture_count by done.
      rewrite set_scanner_twice, Reset_set_scanner by done.
      by rewrite Reset_position_settled.
    + apply bool_decide_eq_false_1 in Hcount.
      exists true, value, p4. split; [done|].
      split; [unfold captures_started in *; congruence|]. split; [|done].
      intros _. split; [lia|]. right. split; [congruence | lia].
Qed.

(** *** The stack of parser states *)

Lemma RegExpParserState_chain_ind (P : RegExpParserState -> Prop) :
  (forall type lookaround index, P (mkRegExpParserState None type lookaround index)) ->
  (forall s type lookaround index,
     P s -> P (mkRegExpParserState (Some s) type lookaround index)) ->
  forall s, P s.
Proof.
  intros Hinitial Hnested. fix IH 1.
  intros [[s|] type lookaround index]; [apply Hnested, IH | apply Hinitial].
Qed.

Lemma enclosing_captures_unfold previous type lookaround index :
  enclosing_captures (mkRegExpParserState previous type lookaround index)
  = (if decide (type = CAPTURE) then [index] else []) ++
    match previous with Some s => enclosing_captures s | None => [] end.
Proof.
  unfold enclosing_captures. cbn [state_chain].
  rewrite filter_cons. cbn [group_type].
  destruct (decide (type = CAPTURE)); by destruct previous.
Qed.

(** X24.  IsInsideCaptureGroup only answers true for the index of a capture
    group that encloses the state.  When the indices of the enclosing
    capture groups decrease from the innermost outwards, as they do for
    groups numbered in the order they are opened, the early exit loses
    nothing: the answer is true exactly for the enclosing capture groups. *)
Theorem IsInsideCaptureGroup_spec (s : RegExpParserState) (index : Z) :
  (IsInsideCaptureGroup s index = true -> index ∈ enclosing_captures s) /\
  (StronglySorted Z.gt (enclosing_captures s) ->
   (IsInsideCaptureGroup s index = true <-> index ∈ enclosing_captures s)).
Proof.
  assert (forall s, IsInsideCaptureGroup s index = true ->
                    index ∈ enclosing_captures s) as Hsound.
  { clear s. intros s.
    induction s as [type lookaround ci | s' type lookaround ci IH]
      using RegExpParserState_chain_ind;
      rewrite enclosing_captures_unfold; cbn [IsInsideCaptureGroup].
    - destruct (decide (type = CAPTURE)) as [->|Hne].
      + rewrite bool_decide_eq_true_2 by done. cbn [negb].
        destruct (bool_decide (index = ci)) eqn:Heq.
        * apply bool_decide_eq_true_1 in Heq. subst. intros _.
          apply elem_of_cons. by left.
        * by destruct (bool_decide (index > ci)).
      + by rewrite bool_decide_eq_false_2.
    - destruct (decide (type = CAPTURE)) as [->|Hne].
      + rewrite bool_decide_eq_true_2 by done. cbn [negb].
        destruct (bool_decide (index = ci)) eqn:Heq.
        * apply bool_decide_eq_true_1 in Heq. subst. intros _.
          apply elem_of_cons. by left.
        * destruct (bool_decide (index > ci)); [done|].
          intros Hin%IH. apply elem_of_cons. by right.
      + rewrite bool_decide_eq_false_2 by done. cbn [negb app].
        apply IH. }
  split; [apply Hsound|].
  intros Hsorted. split; [apply Hsound|].
  revert Hsorted.
  induction s as [type lookaround ci | s' type lookaround ci IH]
    using RegExpParserState_chain_ind;
    rewrite enclosing_captures_unfold; cbn [IsInsideCaptureGroup].
  - destruct (decide (type = CAPTURE)) as [->|Hne].
    + intros _ Hin. apply list_elem_of_singleton in Hin as ->.
      by rewrite !bool_decide_eq_true_2.
    + intros _ Hin. by apply elem_of_nil in Hin.
  - destruct (decide (type = CAPTURE)) as [->|Hne].
    + cbn [app]. intros Hsorted Hin.
      apply StronglySorted_inv in Hsorted as [Hsorted Hall].
      rewrite bool_decide_eq_true_2 by done. cbn [negb].
      apply elem_of_cons in Hin as [->|Hin];
        [by rewrite bool_decide_eq_true_2|].
      rewrite Forall_forall in Hall. pose proof (Hall _ Hin) as Hlt.
      rewrite bool_decide_eq_false_2 by lia.
      rewrite bool_decide_eq_false_2 by lia.
      by apply IH.
    + rewrite bool_decide_eq_false_2 by done. cbn [negb app]. apply IH.
Qed.

(** *** ParseUnicodeEscape *)

Lemma Advance_keeps_unicode p : unicode_ (Advance p) = unicode_ p.
Proof.
  unfold Advance. destruct (has_next p); [|done].
  destruct (HasOverflowed p); [done|].
  destruct (excess_allocation p); [done|].
  pose proof (ReadNext_update p) as Hupd.
  destruct (ReadNext true p) as [c q]. cbn in *. by rewrite Hupd.
Qed.

Lemma iter_Advance_keeps_unicode (n : nat) p :
  unicode_ (Nat.iter n Advance p) = unicode_ p.
Proof.
  induction n as [|n IH]; [done|].
  by rewrite Nat.iter_succ, Advance_keeps_unicode.
Qed.

Lemma ParseHexEscape_loop_failure_value n start val value p v' p' :
  ParseHexEscape_loop n start val value p = (false, v', p') -> v' = value.
Proof.
  revert val p. induction n as [|n IH]; intros val p; cbn; [done|].
  destruct (bool_decide (HexValue (current p) < 0)); [by intros [= <- _]|].
  apply IH.
Qed.

Lemma ParseUnlimitedLengthHexNumber_loop_moves (max_value value : Z) p0 :
  no_resource_failure ->
  forall (fuel : nat) (x d : Z) (p : RegExpParser) ok v p',
    (exists c n h, p = set_scanner p0 c n h) ->
    ParseUnlimitedLengthHexNumber_loop fuel max_value x d value p = Some (ok, v, p') ->
    exists c n h, p' = set_scanner p0 c n h.
Proof.
  intros Hres fuel.
  induction fuel as [|fuel IH]; intros x d p ok v p' Hmoved;
    cbn [ParseUnlimitedLengthHexNumber_loop];
    destruct (bool_decide (d >= 0)); try done; try by intros [= <- <- <-].
  destruct (bool_decide (x * 16 + d > max_value)); [by intros [= <- <- <-]|].
  apply IH. by apply moved_Advance.
Qed.

Lemma ParseUnlimitedLengthHexNumber_run
    (fuel : nat) (p : RegExpParser) (max_value value : Z) :
  HexValue kEndMarker < 0 ->
  (remaining_input p + 1 <= fuel)%nat ->
  exists ok v p',
    ParseUnlimitedLengthHexNumber fuel p max_value value = Some (ok, v, p') /\
    (ok = true -> 0 <= v <= max_value) /\
    (ok = false -> v = value) /\
    (no_resource_failure -> forall p0,
       (exists c n h, p = set_scanner p0 c n h) ->
       exists c n h, p' = set_scanner p0 c n h).
Proof.
  intros Hend Hfuel. unfold ParseUnlimitedLengthHexNumber.
  destruct (bool_decide (HexValue (current p) < 0)) eqn:Hd.
  { eexists _, _, _. split; [reflexivity|]. by repeat split. }
  apply bool_decide_eq_false_1 in Hd.
  destruct (ParseUnlimitedLengthHexNumber_loop_run max_value value Hend
              fuel 0 p ltac:(lia) Hfuel)
    as (ok & v & p' & Hrun & Htrue & Hfalse).
  exists ok, v, p'. split; [exact Hrun|]. split; [|split; [done|]].
  - intros Hok. destruct (Htrue Hok) as (_ & _ & Hv). apply Hv. lia.
  - intros Hres p0 Hmoved.
    by apply (ParseUnlimitedLengthHexNumber_loop_moves max_value value p0 Hres
                fuel 0 (HexValue (current p)) p ok v p').
Qed.

(** X27.  ParseUnicodeEscape ends within as many steps as input is left.
    When it succeeds, the value is a code point from 0 to 0x10FFFF or, with
    the unicode flag, the combination of a lead and a trail surrogate read
    from two escapes.  When it fails, a settled parser is back exactly where
    it started; the caller's value is untouched unless the escape began
    with a brace under the unicode flag, in which case it may hold the
    number read before the closing brace went missing. *)
Theorem ParseUnicodeEscape_outcomes (fuel : nat) (p : RegExpParser) (value : Z) :
  HexValue kEndMarker < 0 ->
  (forall c, HexValue c < 16) ->
  (remaining_input p + 1 <= fuel)%nat ->
  exists ok v p',
    ParseUnicodeEscape fuel p value = Some (ok, v, p') /\
    (ok = true ->
     0 <= v <= 1114111 \/
     (unicode p = true /\
      exists lead trail,
        IsLeadSurrogate lead = true /\ IsTrailSurrogate trail = true /\
        0 <= lead < 65536 /\ 0 <= trail < 65536 /\
        v = CombineSurrogatePair (to_uc16 lead) (to_uc16 trail))) /\
    (ok = false ->
     (v = value \/ (current p = 123 /\ unicode p = true /\ 0 <= v <= 1114111)) /\
     (no_resource_failure -> scanner_settled p -> p' = p)).
Proof.
  intros Hend Hhex Hfuel. unfold ParseUnicodeEscape.
  destruct (bool_decide (current p = 123) && unicode p) eqn:Hbrace.
  - apply andb_true_iff in Hbrace as [Hcur Huni].
    apply bool_decide_eq_true_1 in Hcur.
    pose proof (Advance_remaining p) as Hrem.
    destruct (ParseUnlimitedLengthHexNumber_run fuel (Advance p) 1114111 value Hend
                ltac:(lia)) as (ok & v & p1 & -> & Htrue & Hfalse & Hmoved).
    cbn. destruct ok; cbn.
    + destruct (bool_decide (current p1 = 125)).
      * eexists _, _, _. split; [reflexivity|]. split; [|done].
        intros _. left. by apply Htrue.
      * eexists _, _, _. split; [reflexivity|]. split; [done|].
        intros _. split; [right; by eauto|].
        intros Hres Hsettled.
        rewrite (moved_Reset p p1 (position p) Hres)
          by (apply Hmoved, Advance_moves_scanner; done).
        by apply Reset_position_settled.
    + eexists _, _, _. split; [reflexivity|]. split; [done|].
      intros _. split; [left; by apply Hfalse|].
      intros Hres Hsettled.
      rewrite (moved_Reset p p1 (position p) Hres)
        by (apply Hmoved, Advance_moves_scanner; done).
      by apply Reset_position_settled.
  - clear Hbrace.
    destruct (ParseHexEscape p 4 value) as [[result v1] p1] eqn:Hfirst.
    unfold ParseHexEscape in Hfirst.
    destruct result; cbn [andb].
    + destruct (ParseHexEscape_loop_success _ _ _ _ _ _ _ Hhex Hfirst) as [Hv1 _].
      change (16 ^ Z.of_nat (Z.to_nat 4)) with 65536 in Hv1.
      destruct (unicode p1 && IsLeadSurrogate v1 && bool_decide (current p1 = 92))
        eqn:Hpair.
      * apply andb_true_iff in Hpair as [Hpair _].
        apply andb_true_iff in Hpair as [Huni Hlead].
        assert (unicode p = true) as Huni'.
        { destruct (ParseHexEscape_loop_success _ _ _ _ _ _ _ Hhex Hfirst) as [_ ->].
          revert Huni. unfold unicode.
          by rewrite iter_Advance_keeps_unicode. }
        destruct (bool_decide (Next p1 = 117)).
        -- destruct (ParseHexEscape (Advance_by p1 2) 4 0) as [[ok trail] p2] eqn:Hsecond.
           unfold ParseHexEscape in Hsecond.
           destruct ok; cbn [andb].
           ++ destruct (ParseHexEscape_loop_success _ _ _ _ _ _ _ Hhex Hsecond)
                as [Htrail _].
              change (16 ^ Z.of_nat (Z.to_nat 4)) with 65536 in Htrail.
              destruct (IsTrailSurrogate trail) eqn:Htr.
              ** eexists _, _, _. split; [reflexivity|]. split; [|done].
                 intros _. right. split; [done|].
                 exists v1, trail. repeat split; try done; lia.
              ** eexists _, _, _. split; [reflexivity|]. split; [|done].
                 intros _. left. lia.
           ++ eexists _, _, _. split; [reflexivity|]. split; [|done].
              intros _. left. lia.
        -- eexists _, _, _. split; [reflexivity|]. split; [|done].
           intros _. left. lia.
      * eexists _, _, _. split; [reflexivity|]. split; [|done].
        intros _. left. lia.
    + eexists _, _, _. split; [reflexivity|]. split; [done|].
      intros _. split.
      * left. by apply (ParseHexEscape_loop_failure_value _ _ _ _ _ _ _ Hfirst).
      * intros Hres Hsettled.
        destruct (ParseHexEscape_loop_failure _ _ _ _ _ _ _ Hres Hfirst) as [_ ->].
        by apply Reset_position_settled.
Qed.

End SubParsers.

End RegExpFacts.

(** ** The further properties at work on the samples *)

Section MoreOnTheSampleHeap.

Import Sample SampleIC.

Lemma empty_cache_consistent : cache_consistent (D:=Sample.declarations) ∅.
Proof. intros key code Hlook. by rewrite lookup_empty in Hlook. Qed.

Lemma ComputeStore_keeps_cache_consistent_witness :
  exists code isolate',
    ComputeStore DebugBuild S_MEGAMORPHIC 2 empty_isolate = Done (Some code, isolate') /\
    cache_consistent (non_monomorphic_cache isolate') /\
    flags code = 162%N.
Proof.
  assert (exists handler isolate',
            ComputeStore DebugBuild S_MEGAMORPHIC 2 empty_isolate
            = Done (handler, isolate')) as (handler & isolate' & Hrun).
  { eexists _, _. vm_compute. reflexivity. }
  destruct (ComputeStore_keeps_cache_consistent (D:=Sample.declarations) DebugBuild
              S_MEGAMORPHIC 2 empty_isolate isolate' handler
              empty_cache_consistent Hrun)
    as (Hconsistent & code & -> & Hflags & _).
  exists code, isolate'. split; [exact Hrun|].
  split; [exact Hconsistent | exact Hflags].
Defined.

Lemma ComputeStore_only_grows_the_cache_witness :
  exists handler isolate',
    ComputeStore DebugBuild S_MEGAMORPHIC 2 empty_isolate = Done (handler, isolate') /\
    (code_space_top isolate' + 0 = 0 + size (non_monomorphic_cache isolate'))%nat.
Proof.
  assert (exists handler isolate',
            ComputeStore DebugBuild S_MEGAMORPHIC 2 empty_isolate
            = Done (handler, isolate')) as (handler & isolate' & Hrun).
  { eexists _, _. vm_compute. reflexivity. }
  exists handler, isolate'. split; [exact Hrun|].
  apply (ComputeStore_only_grows_the_cache (D:=Sample.declarations) DebugBuild
           S_MEGAMORPHIC 2 empty_isolate isolate' handler Hrun).
Defined.

Lemma ComputeStore_other_flags_do_not_evict_witness :
  exists handler1 isolate1 handler2 isolate2,
    ComputeStore DebugBuild S_MEGAMORPHIC 0 empty_isolate = Done (handler1, isolate1) /\
    ComputeStore DebugBuild S_MEGAMORPHIC 1 isolate1 = Done (handler2, isolate2) /\
    ComputeStore DebugBuild S_MEGAMORPHIC 0 isolate2 = Done (handler1, isolate2).
Proof.
  assert (exists handler1 isolate1 handler2 isolate2,
            ComputeStore DebugBuild S_MEGAMORPHIC 0 empty_isolate
            = Done (handler1, isolate1) /\
            ComputeStore DebugBuild S_MEGAMORPHIC 1 isolate1
            = Done (handler2, isolate2))
    as (handler1 & isolate1 & handler2 & isolate2 & Hrun1 & Hrun2).
  { eexists _, _, _, _. split; vm_compute; reflexivity. }
  exists handler1, isolate1, handler2, isolate2.
  split; [exact Hrun1|]. split; [exact Hrun2|].
  apply (ComputeStore_other_flags_do_not_evict (D:=Sample.declarations) DebugBuild 0 1
           empty_isolate isolate1 isolate2 handler1 handler2);
    [discriminate | exact Hrun1 | exact Hrun2].
Defined.

Lemma ComputeStore_other_state_witness :
  ComputeStore DebugBuild S_MONOMORPHIC 0 empty_isolate = Aborted.
Proof.
  apply (ComputeStore_other_state (D:=Sample.declarations) S_MONOMORPHIC 0 empty_isolate).
  discriminate.
Defined.

Lemma keyed_load_aborts_only_on_unknown_elements_witness :
  exists stub,
    ComputeKeyedLoadMonomorphicHandler DebugBuild dictionary_object_map 0
    = Done (GetCode stub).
Proof.
  apply (keyed_load_aborts_only_on_unknown_elements (D:=Sample.declarations) DebugBuild
           dictionary_object_map 0).
  discriminate.
Defined.

Lemma keyed_load_extra_state_only_for_dictionary_witness :
  ComputeKeyedLoadMonomorphicHandler DebugBuild initial_holey_array_map 1
  = ComputeKeyedLoadMonomorphicHandler DebugBuild initial_holey_array_map 2.
Proof.
  apply (keyed_load_extra_state_only_for_dictionary (D:=Sample.declarations) DebugBuild
           initial_holey_array_map 1 2).
  right. right. right. reflexivity.
Defined.

Definition three_maps : list map_t :=
  [initial_packed_smi_array_map; initial_holey_array_map; number_map].

Lemma three_maps_compiled (store_mode : store_mode_t) :
  exists out',
    CompileKeyedStorePolymorphicHandlers DebugBuild
      (mkPropertyICCompiler KEYED_STORE_IC 0) three_maps
      {| transitioned_maps := []; handlers := [] |} store_mode = Done out'.
Proof. eexists. apply CompileKeyedStorePolymorphicHandlers_run. Defined.

Lemma keyed_store_polymorphic_lists_correlate_witness :
  exists out' (new_handlers : list (Handle Code)) (new_maps : list (Handle map_t)),
    CompileKeyedStorePolymorphicHandlers DebugBuild
      (mkPropertyICCompiler KEYED_STORE_IC 0) three_maps
      {| transitioned_maps := []; handlers := [] |} M_STANDARD_STORE = Done out' /\
    handlers out' = new_handlers /\
    Forall2 (fun transitioned handler =>
               is_null handler = false /\
               is_transition_stub handler = negb (is_null transitioned))
            new_maps new_handlers.
Proof.
  destruct (three_maps_compiled M_STANDARD_STORE) as (out' & Hrun).
  destruct (keyed_store_polymorphic_lists_correlate (D:=Sample.declarations) DebugBuild
              (mkPropertyICCompiler KEYED_STORE_IC 0) three_maps
              {| transitioned_maps := []; handlers := [] |} out' M_STANDARD_STORE
              Hrun) as (hs & ts & Hh & _ & Hall).
  exists out', hs, ts. split; [exact Hrun|]. split; [exact Hh | exact Hall].
Defined.

Lemma keyed_store_polymorphic_store_modes_witness :
  exists out' handler,
    CompileKeyedStorePolymorphicHandlers DebugBuild
      (mkPropertyICCompiler KEYED_STORE_IC 0) three_maps
      {| transitioned_maps := []; handlers := [] |}
      M_STORE_AND_GROW_NO_TRANSITION = Done out' /\
    handlers out' !! 1%nat = Some handler /\
    (handler <> Some (BuiltinCode KeyedStoreIC_Slow) ->
     handler_store_mode handler = Some M_STORE_AND_GROW_NO_TRANSITION).
Proof.
  destruct (three_maps_compiled M_STORE_AND_GROW_NO_TRANSITION) as (out' & Hrun).
  destruct (keyed_store_polymorphic_store_modes (D:=Sample.declarations) DebugBuild
              (mkPropertyICCompiler KEYED_STORE_IC 0) three_maps
              {| transitioned_maps := []; handlers := [] |} out'
              M_STORE_AND_GROW_NO_TRANSITION 1 initial_holey_array_map
              Hrun eq_refl) as (handler & Hh & _ & Hmode).
  exists out', handler. split; [exact Hrun|]. split; [exact Hh | exact Hmode].
Defined.

Lemma keyed_store_polymorphic_agrees_with_monomorphic_witness :
  exists out',
    CompileKeyedStorePolymorphicHandlers DebugBuild
      (mkPropertyICCompiler KEYED_STORE_IC 0) three_maps
      {| transitioned_maps := []; handlers := [] |} M_STANDARD_STORE = Done out' /\
    handlers out' !! 1%nat
    = Some (CompileKeyedStoreMonomorphicHandler
              (mkPropertyICCompiler KEYED_STORE_IC 64) initial_holey_array_map
              M_STANDARD_STORE).
Proof.
  destruct (three_maps_compiled M_STANDARD_STORE) as (out' & Hrun).
  exists out'. split; [exact Hrun|].
  apply (keyed_store_polymorphic_agrees_with_monomorphic (D:=Sample.declarations)
           DebugBuild (mkPropertyICCompiler KEYED_STORE_IC 0)
           (mkPropertyICCompiler KEYED_STORE_IC 64) three_maps
           {| transitioned_maps := []; handlers := [] |} out' M_STANDARD_STORE
           1 initial_holey_array_map Hrun eq_refl eq_refl);
    [vm_compute; discriminate | reflexivity].
Defined.

Lemma release_build_agrees_with_debug_build_witness :
  ComputeKeyedStoreMonomorphicHandler ReleaseBuild uint8_array_map L_STRICT
    M_STANDARD_STORE
  = Done (GetCode (StoreFastElementStub false K_UINT8 M_STANDARD_STORE)).
Proof.
  apply (release_build_agrees_with_debug_build (D:=Sample.declarations)).
  reflexivity.
Defined.

Lemma TargetMaps_reads_the_nexus_once_witness :
  exists ic1,
    TargetMaps (D:=SampleIC.declarations) K_LOAD_IC K_KEYED_LOAD_IC K_CALL_IC
      extract_maps DebugBuild
      (an_ic_of_kind K_KEYED_STORE_IC (Some (mk_nexus S_POLYMORPHIC))) [number_map]
    = Done (ic1, [number_map; initial_packed_smi_array_map; initial_holey_array_map]) /\
    TargetMaps (D:=SampleIC.declarations) K_LOAD_IC K_KEYED_LOAD_IC K_CALL_IC
      extract_maps ReleaseBuild ic1 []
    = Done (ic1, [] ++ target_maps_ ic1) /\
    FirstTargetMap (D:=SampleIC.declarations) K_LOAD_IC K_KEYED_LOAD_IC K_CALL_IC
      extract_maps DebugBuild ic1
    = Done (ic1, head (target_maps_ ic1)).
Proof.
  assert (exists ic1,
            TargetMaps (D:=SampleIC.declarations) K_LOAD_IC K_KEYED_LOAD_IC
              K_CALL_IC extract_maps DebugBuild
              (an_ic_of_kind K_KEYED_STORE_IC (Some (mk_nexus S_POLYMORPHIC)))
              [number_map]
            = Done (ic1, [number_map; initial_packed_smi_array_map;
                          initial_holey_array_map])) as (ic1 & Hrun).
  { eexists. vm_compute. reflexivity. }
  exists ic1. split; [exact Hrun|].
  destruct (TargetMaps_reads_the_nexus_once (D:=SampleIC.declarations)
              K_LOAD_IC K_KEYED_LOAD_IC K_CALL_IC extract_maps DebugBuild
              (an_ic_of_kind K_KEYED_STORE_IC (Some (mk_nexus S_POLYMORPHIC)))
              ic1 [number_map] _ Hrun) as (_ & _ & _ & Hagain & Hfirst).
  split; [apply Hagain | apply Hfirst].
Defined.

Lemma FindTargetMaps_fails_without_nexus_witness :
  FindTargetMaps (D:=SampleIC.declarations) K_LOAD_IC K_KEYED_LOAD_IC K_CALL_IC
    extract_maps ReleaseBuild (an_ic_of_kind K_KEYED_STORE_IC None) = Aborted /\
  FindTargetMaps (D:=SampleIC.declarations) K_LOAD_IC K_KEYED_LOAD_IC K_CALL_IC
    extract_maps DebugBuild
    (an_ic_of_kind K_BINARY_OP_IC (Some (mk_nexus S_MONOMORPHIC))) = Aborted.
Proof.
  split.
  - apply (proj2 (FindTargetMaps_fails_without_nexus (D:=SampleIC.declarations)
                    K_LOAD_IC K_KEYED_LOAD_IC K_CALL_IC extract_maps ReleaseBuild
                    (an_ic_of_kind K_KEYED_STORE_IC None))).
    split; [reflexivity | left; reflexivity].
  - apply (proj2 (FindTargetMaps_fails_without_nexus (D:=SampleIC.declarations)
                    K_LOAD_IC K_KEYED_LOAD_IC K_CALL_IC extract_maps DebugBuild
                    (an_ic_of_kind K_BINARY_OP_IC (Some (mk_nexus S_MONOMORPHIC))))).
    split; [reflexivity | right; split; reflexivity].
Defined.


Lemma MarkRecomputeHandler_twice_loses_the_saved_state_witness :
  exists ic1 ic2,
    MarkRecomputeHandler (fun _ _ => true) DebugBuild (an_ic S_MONOMORPHIC) (Smi 1)
      = Done ic1 /\
    MarkRecomputeHandler (fun _ _ => true) DebugBuild ic1 (Smi 1) = Done ic2 /\
    saved_state ic1 = S_MONOMORPHIC /\
    saved_state ic2 = S_RECOMPUTE_HANDLER.
Proof.
  assert (exists ic1 ic2,
            MarkRecomputeHandler (fun _ _ => true) DebugBuild
              (an_ic S_MONOMORPHIC) (Smi 1) = Done ic1 /\
            MarkRecomputeHandler (fun _ _ => true) DebugBuild ic1 (Smi 1)
            = Done ic2) as (ic1 & ic2 & Hrun1 & Hrun2).
  { eexists _, _. split; vm_compute; reflexivity. }
  exists ic1, ic2. split; [exact Hrun1|]. split; [exact Hrun2|].
  destruct (MarkRecomputeHandler_twice_loses_the_saved_state (D:=Sample.declarations)
              (fun _ _ => true) DebugBuild (an_ic S_MONOMORPHIC) ic1 ic2
              (Smi 1) (Smi 1) Hrun1 Hrun2) as (H1 & H2 & _).
  split; [exact H1 | exact H2].
Defined.

End MoreOnTheSampleHeap.

Section OnTheSamplePatterns.

Import RegExp RegExpFacts SampleRegExp.

Lemma sample_no_resource_failure : no_resource_failure (R:=SampleRegExp.declarations).
Proof. intros p. by split. Qed.

Lemma is_decimal_digit_range (c : Z) : is_decimal_digit c = true -> 48 <= c <= 57.
Proof.
  unfold is_decimal_digit. rewrite andb_true_iff, !bool_decide_eq_true. lia.
Qed.

Lemma hex_value_below_16 (c : Z) : hex_value c < 16.
Proof. unfold hex_value. repeat case_bool_decide; lia. Qed.




Lemma Next_is_current_after_Advance_witness :
  current (Advance (parser_on pattern_interval)) = 50 /\
  Next (parser_on pattern_interval) = 50.
Proof.
  split; [reflexivity|].
  rewrite <- (Next_is_current_after_Advance (R:=SampleRegExp.declarations)
                (parser_on pattern_interval) sample_no_resource_failure).
  reflexivity.
Defined.


Lemma ReportError_zips_to_the_end_witness :
  Next (Advance (Advance (ReportError (parser_on pattern_broken_interval)
                            "Incomplete quantifier"))) = kEndMarker.
Proof.
  pose proof (ReportError_zips_to_the_end (R:=SampleRegExp.declarations)
                (parser_on pattern_broken_interval) "Incomplete quantifier" 2)
    as Hend.
  cbv zeta in Hend. destruct Hend as (_ & _ & _ & Hnext & _). exact Hnext.
Defined.

Lemma ParseOctalLiteral_below_256_witness :
  exists value p' (digits : nat),
    ParseOctalLiteral DebugBuild (parser_on pattern_hex) = Done (value, p') /\
    0 <= value <= 255 /\
    (1 <= digits <= 3)%nat /\ p' = Nat.iter digits Advance (parser_on pattern_hex).
Proof.
  apply (ParseOctalLiteral_below_256 (R:=SampleRegExp.declarations) DebugBuild
           (parser_on pattern_hex)).
  reflexivity.
Defined.




Lemma ScanForCaptures_counts_up_witness :
  exists p',
    ScanForCaptures 20 (parser_on pattern_groups) = Some p' /\
    captures_started (parser_on pattern_groups) <= capture_count_ p' /\
    is_scanned_for_captures_ p' = true /\
    captures_started p' = captures_started (parser_on pattern_groups) /\
    current p' = kEndMarker /\
    (no_resource_failure ->
     exists c n h,
       p' = set_capture_count (set_scanner (parser_on pattern_groups) c n h)
              (capture_count_ p')).
Proof.
  apply (ScanForCaptures_counts_up (R:=SampleRegExp.declarations) 20
           (parser_on pattern_groups)).
  vm_compute. lia.
Defined.

Lemma ParseBackReferenceIndex_within_captures_witness :
  exists ok index p',
    ParseBackReferenceIndex DebugBuild 10 (parser_on pattern_backreference) 0
    = Some (Done (ok, index, p')) /\
    captures_started p' = captures_started (parser_on pattern_backreference) /\
    (ok = true ->
     1 <= index <= kMaxCaptures /\
     (index <= captures_started p' \/
      (is_scanned_for_captures_ p' = true /\ index <= capture_count_ p'))) /\
    (ok = false ->
     index = 0 /\
     (no_resource_failure -> scanner_settled (parser_on pattern_backreference) ->
      p' = parser_on pattern_backreference \/
      exists capture_count,
        p' = set_capture_count (parser_on pattern_backreference) capture_count)).
Proof.
  apply (ParseBackReferenceIndex_within_captures (R:=SampleRegExp.declarations)
           DebugBuild 10 (parser_on pattern_backreference) 0).
  - vm_compute. discriminate.
  - exact is_decimal_digit_range.
  - reflexivity.
  - reflexivity.
  - vm_compute. split; discriminate.
  - vm_compute. lia.
Defined.

Lemma IsInsideCaptureGroup_spec_witness :
  (IsInsideCaptureGroup nested_states 1 = true <-> 1 ∈ enclosing_captures nested_states) /\
  (IsInsideCaptureGroup nested_states 3 = true <-> 3 ∈ enclosing_captures nested_states).
Proof.
  assert (StronglySorted Z.gt (enclosing_captures nested_states)) as Hsorted.
  { vm_compute. repeat constructor. }
  split.
  - apply (proj2 (IsInsideCaptureGroup_spec nested_states 1)), Hsorted.
  - apply (proj2 (IsInsideCaptureGroup_spec nested_states 3)), Hsorted.
Defined.

Lemma ParseUnicodeEscape_outcomes_witness :
  ParseUnicodeEscape 5 (unicode_parser_on pattern_open_brace) 0
  = Some (false, 65, unicode_parser_on pattern_open_brace) /\
  (65 = 0 \/
   (current (unicode_parser_on pattern_open_brace) = 123 /\
    unicode (unicode_parser_on pattern_open_brace) = true /\ 0 <= 65 <= 1114111)).
Proof.
  assert (ParseUnicodeEscape 5 (unicode_parser_on pattern_open_brace) 0
          = Some (false, 65, unicode_parser_on pattern_open_brace)) as Hrun.
  { vm_compute. reflexivity. }
  split; [exact Hrun|].
  destruct (ParseUnicodeEscape_outcomes (R:=SampleRegExp.declarations) 5
              (unicode_parser_on pattern_open_brace) 0)
    as (ok & v & p' & Hrun' & _ & Hfalse).
  - reflexivity.
  - exact hex_value_below_16.
  - vm_compute. lia.
  - rewrite Hrun in Hrun'. injection Hrun' as <- <- <-.
    apply (Hfalse eq_refl).
Defined.

End OnTheSamplePatterns.
